(** * Lexitrail backend: the user routes and the test-database cleanup

    A shallow embedding of [backend/app/routes/users.py] (the five handlers
    of the [/users] blueprint) and of [TestUtils.clear_database] from
    [backend/tests/utils.py], over a model of the SQLAlchemy session the
    two files talk to.

    Layout:
    - [Py]       the Python values a JSON body parses to, subscripting, the
                 exceptions that can escape;
    - [Models]   the five tables, their keys and foreign keys;
    - [Orm]      the session: pending changes, the transaction's view, the
                 committed state, and the statements sent to the database;
    - [Flask]    requests and responses;
    - [AppUtils] the ownership helper imported from [app/utils.py];
    - [Users]    the handlers;
    - [TestUtils] the cleanup;
    - [PyStr]    text as code points, [strip] and [split];
    - [Provision] the rest of [tests/utils.py] that talks to the server:
                 the name of the test database, the SQL script cut into
                 commands and run, the drop of the database;
    - [Fixtures] the fixture factories of [tests/utils.py];
    - [Runs]     predicates on runs of the session;
    - the theorems: ownership and existence, creation, listing, cleanup,
      update, rejections, the unguarded read of the body, the uniqueness
      of the key as an invariant; then deletion, what a request can leave
      behind, the SQL script, the connection, and the factories.

    Each request runs on a session of its own, opened on the committed
    database; emails are compared as exact strings. *)

From stdpp Require Import gmap strings list fin_maps pretty.
From Stdlib Require Import ZArith.

#[local] Open Scope Z_scope.
#[local] Set Warnings "-register-all".

(* ===================================================================== *)
(** ** Python values *)
(* ===================================================================== *)

Module Py.

(** What [request.json] can hold: [None], [bool], a number, [str], [list]
    or [dict] with [str] keys.  A [dict] is a finite map, so a key occurs
    once.  Numbers are kept as integers: every operation the handlers
    apply treats a float the same way as an int. *)
Inductive JSON : Type :=
| JNull
| JBool (b : bool)
| JNum (n : Z)
| JStr (s : string)
| JArr (items : list JSON)
| JObj (fields : gmap string JSON).

(** The exceptions that can leave a handler or the cleanup. *)
Inductive Exn : Type :=
| KeyError (key : string)      (* [d[k]] on a dict without [k] *)
| TypeError                    (* [x[k]] on a value that is no dict *)
| IntegrityError               (* a key or foreign-key constraint refused a statement *)
| DriverError (detail : string). (* the driver refused to bind a parameter *)

(** [data[key]] for a [str] key: only a [dict] can be subscripted by a
    string; [None], [bool], numbers, [str] and [list] raise [TypeError],
    and a dict without the key raises [KeyError]. *)
Definition getitem (data : JSON) (key : string) : Exn + JSON :=
  match data with
  | JObj fields =>
      match fields !! key with
      | Some v => inr v
      | None => inl (KeyError key)
      end
  | _ => inl TypeError
  end.


End Py.
Export Py.

(* ===================================================================== *)
(** ** The tables *)
(* ===================================================================== *)

Module Models.

(** Modelled from the spec: [app/models.py] and the schema script are not
    part of the sources at hand; the columns are those of the spec's data
    model, which are also the keyword arguments [tests/utils.py] passes to
    the constructors. *)
Record User := { email : string }.
Record Wordset := { wordset_id : Z; description : string }.
Record Word :=
  { word_id : Z; word : string; word_wordset_id : Z; def1 : string; def2 : string }.
Record UserWord :=
  { user_id : string; userword_word_id : Z; is_included : bool; recall_state : Z }.

(** A reference to a row of one of the four tables that have a key. *)
Inductive Ref : Type :=
| RefUser (user_email : string)
| RefWordset (id : Z)
| RefWord (id : Z)
| RefUserWord (user_email : string) (id : Z).

#[global] Instance Ref_eq_dec : EqDecision Ref.
Proof. solve_decision. Defined.

(** Modelled from the spec: the columns of [RecallHistory] are not shown
    anywhere; the spec only places the table first in the deletion order.
    A row is therefore kept as the references its foreign keys hold,
    whatever they are, into the other four tables. *)
Record RecallHistory := { recall_refs : list Ref }.

Record Database :=
  { users : list User;
    wordsets : list Wordset;
    words : list Word;
    userwords : list UserWord;
    recall_history : list RecallHistory }.

Inductive Table := TRecallHistory | TUserWord | TWord | TWordset | TUser.

#[global] Instance Table_eq_dec : EqDecision Table.
Proof. solve_decision. Defined.

Definition empty_db : Database :=
  {| users := []; wordsets := []; words := []; userwords := []; recall_history := [] |}.

Definition emails (db : Database) : list string := email <$> users db.

(** The primary key of [User] is [email]: no two rows share it. *)
Definition wf_db (db : Database) : Prop := NoDup (emails db).

(** Modelled from the spec: the foreign keys of the data model.
    [Word.wordset_id] points to a [Wordset]; [UserWord.user_id] to a
    [User] and [UserWord.word_id] to a [Word]; [RecallHistory] holds
    whatever it holds.  [User] and [Wordset] reference nothing. *)
Definition word_refs (w : Word) : list Ref := [RefWordset (word_wordset_id w)].
Definition userword_refs (uw : UserWord) : list Ref :=
  [RefUser (user_id uw); RefWord (userword_word_id uw)].

(** Every reference held by some row of the database. *)
Definition held_refs (db : Database) : list Ref :=
  (words db ≫= word_refs) ++ (userwords db ≫= userword_refs)
    ++ (recall_history db ≫= recall_refs).

(** The keys of the rows of a table, as the references that would point
    to them.  Nothing points to a [RecallHistory] row. *)
Definition table_keys (db : Database) (t : Table) : list Ref :=
  match t with
  | TRecallHistory => []
  | TUserWord => (λ uw, RefUserWord (user_id uw) (userword_word_id uw)) <$> userwords db
  | TWord => (λ w, RefWord (word_id w)) <$> words db
  | TWordset => (λ ws, RefWordset (wordset_id ws)) <$> wordsets db
  | TUser => (λ u, RefUser (email u)) <$> users db
  end.

(** Modelled from the spec: a foreign key refuses the removal of a row
    that some row still points to; this is the constraint violation the
    deletion order exists to avoid. *)
Definition referenced (db : Database) (k : Ref) : bool :=
  bool_decide (k ∈ held_refs db).

Definition truncate (db : Database) (t : Table) : Database :=
  match t with
  | TRecallHistory =>
      {| users := users db; wordsets := wordsets db; words := words db;
         userwords := userwords db; recall_history := [] |}
  | TUserWord =>
      {| users := users db; wordsets := wordsets db; words := words db;
         userwords := []; recall_history := recall_history db |}
  | TWord =>
      {| users := users db; wordsets := wordsets db; words := [];
         userwords := userwords db; recall_history := recall_history db |}
  | TWordset =>
      {| users := users db; wordsets := []; words := words db;
         userwords := userwords db; recall_history := recall_history db |}
  | TUser =>
      {| users := []; wordsets := wordsets db; words := words db;
         userwords := userwords db; recall_history := recall_history db |}
  end.

Definition with_users (db : Database) (us : list User) : Database :=
  {| users := us; wordsets := wordsets db; words := words db;
     userwords := userwords db; recall_history := recall_history db |}.

(** [UPDATE user SET email = new WHERE email = old]. *)
Definition rename (old new : string) (us : list User) : list User :=
  (λ u, if bool_decide (email u = old) then {| email := new |} else u) <$> us.

(** [DELETE FROM user WHERE email = pk]. *)
Definition remove (pk : string) (us : list User) : list User :=
  filter (λ u, email u ≠ pk) us.

(** The number of rows of [User] with a given email. *)
Definition rows_with (e : string) (db : Database) : nat :=
  length (filter (λ u, email u = e) (users db)).

End Models.
Export Models.

(* ===================================================================== *)
(** ** The ORM session *)
(* ===================================================================== *)

Module Orm.

(** A change staged in the unit of work and sent at the next flush.
    The new value of [SetEmail] is already bound to the column: either
    the string to store or the error the driver raises for it. *)
Inductive Change : Type :=
| Insert (u : User)                          (* [session.add(user)] *)
| SetEmail (pk : string) (v : Exn + string)  (* [user.email = ...] on the row keyed [pk] *)
| Delete (pk : string).                      (* [session.delete(user)] *)

(** What the session sends to the database, oldest first. *)
Inductive Stmt : Type :=
| SelectUser (pk : string)
| SelectAllUsers
| InsertUser (e : string)
| UpdateUser (old new : string)
| DeleteUser (e : string)
| DeleteAll (t : Table)
| Commit
| Rollback.

#[global] Instance Stmt_eq_dec : EqDecision Stmt.
Proof. solve_decision. Defined.

Definition is_select (st : Stmt) : bool :=
  match st with
  | SelectUser _ | SelectAllUsers => true
  | _ => false
  end.

Record Session :=
  { durable : Database;      (* the last committed state *)
    view : Database;         (* the open transaction's state *)
    pending : list Change;   (* staged, not yet flushed *)
    log : list Stmt }.

(** The session a request, or a test's set-up, starts with. *)
Definition new_session (db : Database) : Session :=
  {| durable := db; view := db; pending := []; log := [] |}.

Inductive Outcome (A : Type) : Type :=
| Ok (a : A)
| Raise (e : Exn).
Arguments Ok {A} a.
Arguments Raise {A} e.

(** A computation on the session; an exception keeps the session it was
    raised in. *)
Definition M (A : Type) : Type := Session → Outcome A * Session.

#[global] Instance M_ret : MRet M := λ A a s, (Ok a, s).
#[global] Instance M_bind : MBind M := λ A B f m s,
  match m s with
  | (Ok a, s') => f a s'
  | (Raise e, s') => (Raise e, s')
  end.

Definition raise {A} (e : Exn) : M A := λ s, (Raise e, s).

(** [try: body except Exception as e: handler(e)]. *)
Definition try_except {A} (body : M A) (handler : Exn → M A) : M A := λ s,
  match body s with
  | (Ok a, s') => (Ok a, s')
  | (Raise e, s') => handler e s'
  end.

(** A subscript or another pure step that may raise. *)
Definition lift {A} (r : Exn + A) : M A :=
  match r with
  | inr a => mret a
  | inl e => raise e
  end.

Definition send (st : Stmt) : M () := λ s,
  (Ok (), {| durable := durable s; view := view s; pending := pending s;
             log := log s ++ [st] |}).

Definition set_view (db : Database) : M () := λ s,
  (Ok (), {| durable := durable s; view := db; pending := pending s; log := log s |}).

Definition get_view : M Database := λ s, (Ok (view s), s).

(** The row with that key in the transaction's view. *)
Definition find_user (db : Database) (pk : string) : option User :=
  List.find (λ u, bool_decide (email u = pk)) (users db).

(** [db.session.get(User, pk)]. *)
Definition session_get (pk : string) : M (option User) :=
  send (SelectUser pk);; db ← get_view; mret (find_user db pk).

(** [User.query.filter_by(email=pk).first()]. *)
Definition query_filter_by_email_first (pk : string) : M (option User) :=
  send (SelectUser pk);; db ← get_view; mret (find_user db pk).

(** [User.query.all()]. *)
Definition query_all : M (list User) :=
  send SelectAllUsers;; db ← get_view; mret (users db).

Definition stage (c : Change) : M () := λ s,
  (Ok (), {| durable := durable s; view := view s; pending := pending s ++ [c];
             log := log s |}).

(** One staged change, as the statement it becomes.  [INSERT] is refused
    on a duplicate key; [UPDATE] of the key is skipped when the value did
    not change and refused on a duplicate key; [DELETE] is refused while
    another row points to the row.

    Modelled from the spec: the schema is not part of the sources.  A
    re-key is not checked against the rows of other tables and leaves
    their references as they were, pointing to the old key (spec, user
    update: the re-key can orphan foreign-key references in other
    tables); a deletion is checked against them (spec, deletion order of
    the cleanup). *)
Definition apply_change (c : Change) : M () :=
  db ← get_view;
  match c with
  | Insert u =>
      send (InsertUser (email u));;
      if bool_decide (email u ∈ emails db) then raise IntegrityError
      else set_view (with_users db (users db ++ [u]))
  | SetEmail pk (inl e) => raise e
  | SetEmail pk (inr new) =>
      if bool_decide (new = pk) then mret ()
      else
        send (UpdateUser pk new);;
        if bool_decide (new ∈ emails db) then raise IntegrityError
        else set_view (with_users db (rename pk new (users db)))
  | Delete pk =>
      send (DeleteUser pk);;
      if referenced db (RefUser pk) then raise IntegrityError
      else set_view (with_users db (remove pk (users db)))
  end.

Fixpoint apply_changes (cs : list Change) : M () :=
  match cs with
  | [] => mret ()
  | c :: cs' => apply_change c;; apply_changes cs'
  end.

Definition make_durable : M () := λ s,
  (Ok (), {| durable := view s; view := view s; pending := pending s; log := log s |}).

Definition discard : M () := λ s,
  (Ok (), {| durable := durable s; view := durable s; pending := []; log := log s |}).

Definition take_pending : M (list Change) := λ s,
  (Ok (pending s),
   {| durable := durable s; view := view s; pending := []; log := log s |}).

(** [db.session.rollback()]. *)
Definition rollback : M () :=
  send Rollback;; discard.

(** The flush sends what is staged; when a statement is refused the
    session rolls the transaction back and the error goes on. *)
Definition flush : M () :=
  try_except (cs ← take_pending; apply_changes cs) (λ e, rollback;; raise e).

(** [db.session.commit()]: flush, then make the view durable. *)
Definition commit : M () :=
  flush;; send Commit;; make_durable.

(** [db.session.query(T).delete()]: one [DELETE FROM t], run at once in
    the open transaction and refused while a row of another table points
    to a row of [t]. *)
Definition query_delete (t : Table) : M () :=
  send (DeleteAll t);;
  db ← get_view;
  if existsb (referenced db) (table_keys db t) then raise IntegrityError
  else set_view (truncate db t).

(** A session whose transaction is closed on [db], with the statements sent
    so far. *)
Definition settled (db : Database) (stmts : list Stmt) : Session :=
  {| durable := db; view := db; pending := []; log := stmts |}.

(** The session differs from a fresh one on [db] by reads only: no row was
    added, changed or removed, nothing is staged, and neither a write nor a
    commit was sent. *)
Definition untouched (db : Database) (s : Session) : Prop :=
  durable s = db ∧ view s = db ∧ pending s = []
  ∧ Forall (λ st, is_select st = true) (log s).

(** The key of [User] is unique in the committed state and in the open
    transaction. *)
Definition key_unique (s : Session) : Prop := wf_db (durable s) ∧ wf_db (view s).

(** A computation that keeps the key unique, however it ends. *)
Definition keeps {A} (c : M A) : Prop :=
  ∀ s o s', key_unique s → c s = (o, s') → key_unique s'.

End Orm.
Export Orm.

(* ===================================================================== *)
(** ** Requests and responses *)
(* ===================================================================== *)

Module Flask.

(** A request as a handler sees it, after [authenticate_user] let it
    through: [request.user['email']], the identity taken from the token,
    and [request.json], the value the body parsed to. *)
Record Request := { user_email : string; json : JSON }.

Record Response := { status : Z; body : JSON }.

(** [jsonify(payload)], returned alone: status 200. *)
Definition jsonify (payload : JSON) : Response := {| status := 200; body := payload |}.

(** [return jsonify(payload), code]. *)
Definition with_status (r : Response) (code : Z) : Response :=
  {| status := code; body := body r |}.

End Flask.
Export Flask.

(* ===================================================================== *)
(** ** The ownership helper *)
(* ===================================================================== *)

Module AppUtils.

(** The text of the rejection is not given by the spec; no statement
    below depends on it. *)
Definition rejection_text : string := "Unauthorized".

(** Modelled from the spec: [validate_user_access] of [app/utils.py],
    which is imported by the routes but is not among the sources.  Given
    the path's email and the authenticated context, it returns a
    rejection (403) if they differ, else nothing. *)
Definition validate_user_access (email : string) (request : Request) : option Response :=
  if bool_decide (user_email request = email) then None
  else Some (with_status (jsonify (JObj {[ "message" := JStr rejection_text ]})) 403).

End AppUtils.

(* ===================================================================== *)
(** ** The handlers of [routes/users.py] *)
(* ===================================================================== *)

Module Users.

(** The routes of the blueprint, [url_prefix='/users']. *)
Inductive Route : Type :=
| PostUsers                   (* [POST /users] *)
| GetUser (email : string)    (* [GET /users/<email>] *)
| PutUser (email : string)    (* [PUT /users/<email>] *)
| DeleteUser (email : string) (* [DELETE /users/<email>] *)
| GetUsers.                   (* [GET /users] *)

Section Handlers.

(** [from ..utils import validate_user_access]: the handlers are written
    against the helper; it reads the request and returns a response or
    [None], and has no access to the session. *)
Variable validate_user_access : string → Request → option Response.

(** How the database driver binds a value that is not a [str] to the
    [email] column (an integer may be stored as its digits, a list be
    refused): neither the driver nor the column's declaration is among
    the sources.  A [str] is bound to itself. *)
Variable bind_other : JSON → Exn + string.

Definition bind_email (v : JSON) : Exn + string :=
  match v with
  | JStr s => inr s
  | other => bind_other other
  end.

(** [POST /users] *)
Definition create_user (request : Request) : M Response :=
  let data := json request in
  let authenticated_email := user_email request in
  v ← lift (getitem data "email");
  (* [if authenticated_email != data['email']] *)
  match v with
  | JStr body_email =>
      if negb (bool_decide (authenticated_email = body_email)) then
        mret (with_status
                (jsonify
                   (JObj {[ "message" := JStr "Unauthorized: You can only create yourself" ]}))
                403)
      else
        existing_user ← query_filter_by_email_first body_email;
        match existing_user with
        | Some _ =>
            mret (with_status
                    (jsonify (JObj {[ "message" := JStr "User already exists" ]})) 200)
        | None =>
            let user := {| email := body_email |} in
            stage (Insert user);;
            commit;;
            mret (with_status
                    (jsonify (JObj {[ "message" := JStr "User created successfully" ]}))
                    201)
        end
  | _ =>
      (* a [str] differs from every value that is not a [str] *)
      mret (with_status
              (jsonify
                 (JObj {[ "message" := JStr "Unauthorized: You can only create yourself" ]}))
              403)
  end.

Definition not_found (email : string) : Response :=
  with_status
    (jsonify (JObj {[ "message" := JStr "User not found"; "email" := JStr email ]})) 404.

(** [GET /users/<email>] *)
Definition get_user (email : string) (request : Request) : M Response :=
  match validate_user_access email request with
  | Some validation_response => mret validation_response
  | None =>
      user ← session_get email;
      match user with
      | None => mret (not_found email)
      | Some user => mret (jsonify (JObj {[ "email" := JStr (Models.email user) ]}))
      end
  end.

(** [PUT /users/<email>] *)
Definition update_user (email : string) (request : Request) : M Response :=
  match validate_user_access email request with
  | Some validation_response => mret validation_response
  | None =>
      user ← session_get email;
      match user with
      | None => mret (not_found email)
      | Some user =>
          let data := json request in
          v ← lift (getitem data "email");
          stage (SetEmail (Models.email user) (bind_email v));;
          commit;;
          mret (jsonify (JObj {[ "message" := JStr "User updated successfully" ]}))
      end
  end.

(** [DELETE /users/<email>] *)
Definition delete_user (email : string) (request : Request) : M Response :=
  match validate_user_access email request with
  | Some validation_response => mret validation_response
  | None =>
      user ← session_get email;
      match user with
      | None => mret (not_found email)
      | Some user =>
          stage (Delete (Models.email user));;
          commit;;
          mret (jsonify (JObj {[ "message" := JStr "User deleted successfully" ]}))
      end
  end.

(** [GET /users] *)
Definition get_users (request : Request) : M Response :=
  users ← query_all;
  mret (jsonify (JArr ((λ user, JObj {[ "email" := JStr (Models.email user) ]}) <$> users))).

(** The handler each route is bound to by its [@bp.route]. *)
Definition dispatch (route : Route) (request : Request) : M Response :=
  match route with
  | PostUsers => create_user request
  | GetUser email => get_user email request
  | PutUser email => update_user email request
  | DeleteUser email => delete_user email request
  | GetUsers => get_users request
  end.

End Handlers.
End Users.

(* ===================================================================== *)
(** ** The cleanup of [tests/utils.py] *)
(* ===================================================================== *)

Module TestUtils.

(** [TestUtils.clear_database(db)] *)
Definition clear_database : M () :=
  try_except
    (query_delete TRecallHistory;;
     query_delete TUserWord;;
     query_delete TWord;;
     query_delete TWordset;;
     query_delete TUser;;
     commit)
    (λ e, rollback;; raise e).

(** The rows [create_test_userword] leaves behind, with a recall entry for
    the same user and word. *)
Definition fixture_chain : Database :=
  {| users := [{| email := "test@example.com" |}];
     wordsets := [{| wordset_id := 1; description := "Test Wordset" |}];
     words := [{| word_id := 1; word := "Test Word"; word_wordset_id := 1;
                  def1 := "Definition 1"; def2 := "Definition 2" |}];
     userwords := [{| user_id := "test@example.com"; userword_word_id := 1;
                      is_included := true; recall_state := 1 |}];
     recall_history := [{| recall_refs := [RefUserWord "test@example.com" 1] |}] |}.

End TestUtils.

(* ===================================================================== *)
(** ** Text *)
(* ===================================================================== *)

Module PyStr.

(** Where the characters of a [str] matter (the SQL script is cut at
    semicolons and stripped of white space) a [str] is the list of its code
    points. *)
Definition lit (s : string) : list N :=
  Ascii.N_of_ascii <$> String.list_ascii_of_string s.

(** [c.isspace()]: the code points Python counts as white space. *)
Definition isspace (c : N) : bool :=
  ((9 <=? c) && (c <=? 13) || (28 <=? c) && (c <=? 32)
   || (c =? 133) || (c =? 160) || (c =? 5760)
   || (8192 <=? c) && (c <=? 8202)
   || (c =? 8232) || (c =? 8233) || (c =? 8239) || (c =? 8287) || (c =? 12288))%N.

(** [s.lstrip()], [s.rstrip()], [s.strip()], without arguments. *)
Fixpoint lstrip (s : list N) : list N :=
  match s with
  | [] => []
  | c :: s' => if isspace c then lstrip s' else s
  end.

Definition rstrip (s : list N) : list N := reverse (lstrip (reverse s)).

Definition strip (s : list N) : list N := rstrip (lstrip s).

(** [s.split(sep)] for a separator of one character: the pieces between
    the separators, empty pieces included; never an empty list. *)
Fixpoint split (sep : N) (s : list N) : list (list N) :=
  match s with
  | [] => [[]]
  | c :: s' =>
      if (c =? sep)%N then [] :: split sep s'
      else match split sep s' with
           | piece :: pieces => (c :: piece) :: pieces
           | [] => [[c]]
           end
  end.

(** The code point of [;]. *)
Definition semicolon : N := 59.

(** Nothing but white space. *)
Abbreviation blank := (Forall (λ c : N, isspace c = true)).

(** The text does not begin with white space. *)
Definition starts_clean (s : list N) : Prop :=
  match s with
  | c :: _ => isspace c = false
  | [] => True
  end.

End PyStr.
Export PyStr.

(* ===================================================================== *)
(** ** Provisioning the test database ([tests/utils.py]) *)
(* ===================================================================== *)

Module Provision.

(** [generate_temp_db_name], as a function of [int(time.time())]. *)
Definition generate_temp_db_name (timestamp : Z) : list N :=
  lit ("test_db_" +:+ pretty timestamp).

(** [sql_script.split(';')] *)
Definition sql_commands (sql_script : list N) : list (list N) :=
  split semicolon sql_script.

(** The commands the loop of [run_sql_script] passes to the cursor: every
    piece, stripped, unless nothing is left of it. *)
Definition stripped_commands (sql_script : list N) : list (list N) :=
  filter (λ command, command ≠ []) (strip <$> sql_commands sql_script).

Definition create_database (db_name : list N) : list N :=
  lit "CREATE DATABASE IF NOT EXISTS " ++ db_name ++ lit ";".

Definition use_database (db_name : list N) : list N :=
  lit "USE " ++ db_name ++ lit ";".

Definition drop_database (db_name : list N) : list N :=
  lit "DROP DATABASE IF EXISTS " ++ db_name ++ lit ";".

(** What can be raised: a [pymysql.MySQLError], which the two functions
    catch, log and raise again, or anything else (the script file cannot
    be opened or read), which they let through. *)
Inductive Error : Type :=
| MySQLError
| OtherError (detail : string).

(** What happens on the connection and the logger, oldest first. *)
Inductive Event : Type :=
| Executed (sql : list N)   (* the server accepted the statement *)
| Refused (sql : list N)    (* the server refused it: [MySQLError] *)
| Committed
| CommitRefused
| ErrorLogged               (* [logger.error(...)] *)
| Closed.                   (* [connection.close()] *)

Section Connection.

(** The server behind [pymysql.connect(host='127.0.0.1', ...)]: its state,
    and what a statement or a commit does to it ([None]: refused with a
    [MySQLError]). *)
Variable Server : Type.
Variable execute : list N → Server → option Server.
Variable commit : Server → option Server.

Record Conn := { server : Server; trace : list Event }.

Definition connect (srv : Server) : Conn := {| server := srv; trace := [] |}.

Definition C (A : Type) : Type := Conn → (Error + A) * Conn.

Definition emit (ev : Event) (c : Conn) : Conn :=
  {| server := server c; trace := trace c ++ [ev] |}.

(** [cursor.execute(sql)] *)
Definition cursor_execute (sql : list N) : C () := λ c,
  match execute sql (server c) with
  | Some srv => (inr (), emit (Executed sql) {| server := srv; trace := trace c |})
  | None => (inl MySQLError, emit (Refused sql) c)
  end.

(** [connection.commit()] *)
Definition connection_commit : C () := λ c,
  match commit (server c) with
  | Some srv => (inr (), emit Committed {| server := srv; trace := trace c |})
  | None => (inl MySQLError, emit CommitRefused c)
  end.

Definition seq {A B} (m : C A) (k : A → C B) : C B := λ c,
  match m c with
  | (inr a, c') => k a c'
  | (inl e, c') => (inl e, c')
  end.

(** [try: body except pymysql.MySQLError as e: logger.error(...); raise
    finally: connection.close()] *)
Definition guarded {A} (body : C A) : C A := λ c,
  match body c with
  | (inr a, c') => (inr a, emit Closed c')
  | (inl MySQLError, c') => (inl MySQLError, emit Closed (emit ErrorLogged c'))
  | (inl e, c') => (inl e, emit Closed c')
  end.

(** [for command in sql_commands: if command.strip():
    cursor.execute(command.strip())] *)
Fixpoint execute_commands (commands : list (list N)) : C () :=
  match commands with
  | [] => λ c, (inr (), c)
  | command :: rest =>
      if bool_decide (strip command ≠ [])
      then seq (cursor_execute (strip command)) (λ _, execute_commands rest)
      else execute_commands rest
  end.

(** [open(sql_script_path, 'r')] and [f.read()]: the text of the script,
    or the error of opening or reading the file, which is no
    [MySQLError]. *)
Definition read_script (file : string + list N) : C (list N) := λ c,
  match file with
  | inr sql_script => (inr sql_script, c)
  | inl detail => (inl (OtherError detail), c)
  end.

(** [TestUtils.run_sql_script(sql_script_path, db_name)], on the
    connection it has opened; [file] is what reading [sql_script_path]
    gives. *)
Definition run_sql_script (file : string + list N) (db_name : list N) : C () :=
  guarded
    (seq (cursor_execute (create_database db_name)) (λ _,
     seq (cursor_execute (use_database db_name)) (λ _,
     seq (read_script file) (λ sql_script,
     execute_commands (sql_commands sql_script))))).

(** [TestUtils.teardown_test_db(app, temp_db_name)], on the connection it
    has opened. *)
Definition teardown_test_db (temp_db_name : list N) : C () :=
  guarded
    (seq (cursor_execute (drop_database temp_db_name)) (λ _, connection_commit)).

(** A step that does not close the connection. *)
Definition stays_open {A} (m : C A) : Prop :=
  ∀ c o c', Closed ∉ trace c → m c = (o, c') → Closed ∉ trace c'.

(** The connection was closed, once, as the last thing done. *)
Definition closed_once (c : Conn) : Prop :=
  ∃ events, trace c = events ++ [Closed] ∧ Closed ∉ events.

End Connection.

Arguments server {Server} _.
Arguments trace {Server} _.
Arguments connect {Server} _.
Arguments closed_once {Server} _.

(** The statements [run_sql_script] has to send for a database name and a
    script file: [CREATE DATABASE], [USE], then the commands of the script,
    if it can be read. *)
Definition statements (file : string + list N) (db_name : list N) : list (list N) :=
  create_database db_name :: use_database db_name
    :: match file with
       | inr sql_script => stripped_commands sql_script
       | inl _ => []
       end.

(** A script laid out as statements, each between white space and followed
    by a semicolon, with white space after the last semicolon. *)
Definition script_of (layout : list (list N * list N * list N)) (tail : list N)
  : list N :=
  foldr (λ '(l, s, r) rest, l ++ s ++ r ++ semicolon :: rest) tail layout.

End Provision.

(* ===================================================================== *)
(** ** The fixture factories ([tests/utils.py]) *)
(* ===================================================================== *)

Module Fixtures.

(** What a factory can raise: an error of the database, or the
    [ValueError] of one of its own checks. *)
Inductive Failure : Type :=
| Raised (e : Exn)
| ValueError (msg : string).

(** In the factories every [db.session.add(row)] is followed at once by
    [db.session.commit()], and nothing else is ever staged: a factory is a
    computation on the committed database, and what was committed before a
    failure stays. *)
Definition F (A : Type) : Type := Database → (Failure + A) * Database.

Definition ret {A} (a : A) : F A := λ db, (inr a, db).
Definition fail {A} (f : Failure) : F A := λ db, (inl f, db).

Definition bind {A B} (m : F A) (k : A → F B) : F B := λ db,
  match m db with
  | (inr a, db') => k a db'
  | (inl f, db') => (inl f, db')
  end.

(** [if row is None: raise ValueError(msg)] *)
Definition require {A} (row : option A) (msg : string) : F A :=
  match row with
  | Some a => ret a
  | None => fail (ValueError msg)
  end.

Definition wordset_ids (db : Database) : list Z := wordset_id <$> wordsets db.
Definition word_ids (db : Database) : list Z := word_id <$> words db.
Definition userword_keys (db : Database) : list (string * Z) :=
  (λ uw, (user_id uw, userword_word_id uw)) <$> userwords db.

Section Factories.

(** Modelled from the spec: [wordset_id] and [word_id] are surrogate keys;
    the factories never set them and read them back after the commit, so
    the database chooses them.  How it does is left open. *)
Variable next_wordset_id : Database → Z.
Variable next_word_id : Database → Z.

(** [db.session.add(User(email=...)); db.session.commit()] *)
Definition add_user (user : User) : F User := λ db,
  if bool_decide (email user ∈ emails db) then (inl (Raised IntegrityError), db)
  else (inr user, with_users db (users db ++ [user])).

(** [db.session.add(Wordset(description=...)); db.session.commit()] *)
Definition add_wordset (description : string) : F Wordset := λ db,
  let wordset := {| wordset_id := next_wordset_id db; description := description |} in
  if bool_decide (wordset_id wordset ∈ wordset_ids db)
  then (inl (Raised IntegrityError), db)
  else (inr wordset,
        {| users := users db; wordsets := wordsets db ++ [wordset]; words := words db;
           userwords := userwords db; recall_history := recall_history db |}).

(** [db.session.add(Word(word=..., wordset_id=..., def1=..., def2=...));
    db.session.commit()]; the wordset it names has to exist. *)
Definition add_word (name : string) (wordset : Z) (d1 d2 : string) : F Word := λ db,
  let word := {| word_id := next_word_id db; word := name; word_wordset_id := wordset;
                 def1 := d1; def2 := d2 |} in
  if bool_decide (word_id word ∈ word_ids db) then (inl (Raised IntegrityError), db)
  else if bool_decide (wordset ∈ wordset_ids db)
  then (inr word,
        {| users := users db; wordsets := wordsets db; words := words db ++ [word];
           userwords := userwords db; recall_history := recall_history db |})
  else (inl (Raised IntegrityError), db).

(** [db.session.add(UserWord(...)); db.session.commit()]; the user and the
    word it names have to exist, and the pair is its key. *)
Definition add_userword (userword : UserWord) : F UserWord := λ db,
  if bool_decide ((user_id userword, userword_word_id userword) ∈ userword_keys db)
  then (inl (Raised IntegrityError), db)
  else if bool_decide (user_id userword ∈ emails db)
          && bool_decide (userword_word_id userword ∈ word_ids db)
  then (inr userword,
        {| users := users db; wordsets := wordsets db; words := words db;
           userwords := userwords db ++ [userword];
           recall_history := recall_history db |})
  else (inl (Raised IntegrityError), db).

(** [db.session.query(Model).filter_by(...).first()] *)
Definition first_user (user_email : string) : F (option User) := λ db,
  (inr (find_user db user_email), db).

Definition first_wordset_by_description (description : string) : F (option Wordset) :=
  λ db, (inr (List.find (λ ws, bool_decide (Models.description ws = description))
                (wordsets db)), db).

Definition first_wordset (id : Z) : F (option Wordset) := λ db,
  (inr (List.find (λ ws, bool_decide (wordset_id ws = id)) (wordsets db)), db).

Definition first_word (id : Z) : F (option Word) := λ db,
  (inr (List.find (λ w, bool_decide (word_id w = id)) (words db)), db).

Definition first_userword (user : string) (id : Z) : F (option UserWord) := λ db,
  (inr (List.find (λ uw, bool_decide (user_id uw = user)
                         && bool_decide (userword_word_id uw = id))
          (userwords db)), db).

(** [TestUtils.create_test_word(db, user_email, word_description,
    word_name)]; [now] is the text of [datetime.utcnow().timestamp()]. *)
Definition create_test_word (now : string)
    (user_email word_description : string) (word_name : option string)
  : F (User * Wordset * Word) :=
  bind (add_user {| email := user_email |}) (λ user,
  bind (add_wordset word_description) (λ _,
  bind (first_wordset_by_description word_description) (λ found,
  bind (require found
          ("Failed to retrieve wordset with description: " +:+ word_description))
    (λ wordset,
  let word_name := default ("Test Word " +:+ now) word_name in
  bind (add_word word_name (wordset_id wordset) "Definition 1" "Definition 2") (λ word,
  bind (first_user (email user)) (λ found,
  bind (require found ("Failed to retrieve user with email: " +:+ user_email))
    (λ user,
  bind (first_wordset (wordset_id wordset)) (λ found,
  bind (require found
          ("Failed to retrieve wordset with description: " +:+ word_description))
    (λ wordset,
  bind (first_word (word_id word)) (λ found,
  bind (require found ("Failed to retrieve word with name: " +:+ word_name))
    (λ word,
  ret (user, wordset, word)))))))))))).

(** [TestUtils.create_test_userword(db, user_email, word_description,
    word_name)]; the last query is returned as it is, [None] included. *)
Definition create_test_userword (now : string)
    (user_email word_description : string) (word_name : option string)
  : F (User * Wordset * Word * option UserWord) :=
  bind (create_test_word now user_email word_description word_name)
    (λ '(user, wordset, word),
  bind (add_userword {| user_id := email user; userword_word_id := word_id word;
                        is_included := true; recall_state := 1 |}) (λ _,
  bind (first_userword (email user) (word_id word)) (λ userword,
  ret (user, wordset, word, userword)))).

End Factories.

(** The chain [create_test_userword] builds on an empty database when the
    database hands out the key 1 twice. *)
Definition built_chain : Database :=
  {| users := [{| email := "test@example.com" |}];
     wordsets := [{| wordset_id := 1; description := "Test Wordset" |}];
     words := [{| word_id := 1; word := "Test Word"; word_wordset_id := 1;
                  def1 := "Definition 1"; def2 := "Definition 2" |}];
     userwords := [{| user_id := "test@example.com"; userword_word_id := 1;
                      is_included := true; recall_state := 1 |}];
     recall_history := [] |}.

End Fixtures.

(* ===================================================================== *)
(** ** Predicates on runs *)
(* ===================================================================== *)

Module Runs.

(** The four tables the user routes have no business with. *)
Definition other_tables (db : Database)
  : list Wordset * list Word * list UserWord * list RecallHistory :=
  (wordsets db, words db, userwords db, recall_history db).

(** A computation under which a relation between the committed state and
    the transaction's view goes on holding, however the computation
    ends. *)
Definition preserves {A} (P : Database → Database → Prop) (c : M A) : Prop :=
  ∀ s o s', P (durable s) (view s) → c s = (o, s') → P (durable s') (view s').

End Runs.
Export Runs.

(* ===================================================================== *)
(** ** Running the model *)
(* ===================================================================== *)

#[global] Arguments find_user : simpl never.
#[global] Arguments emails : simpl never.
#[global] Arguments referenced : simpl never.
#[global] Arguments with_users : simpl never.
#[global] Arguments getitem : simpl never.

Create HintDb orm.
#[global] Hint Unfold mbind mret M_bind M_ret lift raise try_except get_view session_get
  query_filter_by_email_first query_all send stage set_view take_pending flush
  commit rollback make_durable discard apply_change query_delete : orm.

(** Unfold the session primitives and compute as far as the data allows. *)
Ltac run := repeat (progress (autounfold with orm; cbn)).

(* --------------------------------------------------------------------- *)
(** *** Lookups *)

Lemma find_user_None db pk : pk ∉ emails db → find_user db pk = None.
Proof.
  unfold find_user, emails. induction (users db) as [|u us IH]; simpl; [done|].
  intros [Hne Hn]%not_elem_of_cons.
  rewrite bool_decide_eq_false_2 by congruence. auto.
Qed.

Lemma find_user_Some db pk : pk ∈ emails db → find_user db pk = Some {| email := pk |}.
Proof.
  unfold find_user, emails. induction (users db) as [|u us IH]; simpl.
  - by intros ?%elem_of_nil.
  - intros Hin. destruct (decide (email u = pk)) as [Heq|Hne].
    + rewrite bool_decide_eq_true_2 by done. destruct u; simpl in *; by subst.
    + rewrite bool_decide_eq_false_2 by done. apply IH.
      apply elem_of_cons in Hin as [Hin|Hin]; [congruence|done].
Qed.

Lemma session_get_run pk s :
  session_get pk s
    = (Ok (find_user (view s) pk),
       {| durable := durable s; view := view s; pending := pending s;
          log := log s ++ [SelectUser pk] |}).
Proof. reflexivity. Qed.

Lemma getitem_obj m k v : m !! k = Some v → getitem (JObj m) k = inr v.
Proof. intros H. unfold getitem. by rewrite H. Qed.

(** A subscript fails exactly on a value that is no dict or has no such
    key. *)
Lemma getitem_inl data k e :
  getitem data k = inl e ↔
  (e = TypeError ∧ ∀ m, data ≠ JObj m) ∨ (e = KeyError k ∧ ∃ m, data = JObj m ∧ m !! k = None).
Proof.
  unfold getitem. split.
  - destruct data as [| | | | |m]; try (intros [= <-]; left; split; [done|congruence]).
    destruct (m !! k) eqn:Hk; [done|]. intros [= <-]. right. eauto.
  - intros [[-> Hno]|[-> (m & -> & Hk)]].
    + destruct data; try done. by destruct (Hno fields).
    + by rewrite Hk.
Qed.

Lemma emails_with_users db us : emails (with_users db us) = email <$> us.
Proof. reflexivity. Qed.

Lemma with_users_id db : with_users db (users db) = db.
Proof. by destruct db. Qed.

Lemma filter_email_absent e (us : list User) :
  e ∉ email <$> us → filter (λ u, email u = e) us = [].
Proof.
  induction us as [|u us IH]; [done|]. rewrite fmap_cons.
  intros [Hne Hn]%not_elem_of_cons.
  rewrite filter_cons_False by congruence. auto.
Qed.

Lemma rows_with_fresh e db :
  e ∉ emails db → rows_with e (with_users db (users db ++ [{| email := e |}])) = 1%nat.
Proof.
  unfold rows_with, emails, with_users. simpl. intros Hn.
  by rewrite filter_app, length_app, filter_email_absent, filter_cons_True.
Qed.

Lemma rows_with_unique e db : wf_db db → e ∈ emails db → rows_with e db = 1%nat.
Proof.
  unfold wf_db, rows_with, emails. induction (users db) as [|u us IH]; simpl.
  - by intros _ ?%elem_of_nil.
  - intros [Hnot Hnd]%NoDup_cons Hin. destruct (decide (email u = e)) as [Heq|Hne].
    + rewrite filter_cons_True by done. simpl.
      rewrite filter_email_absent; [done|by rewrite <- Heq].
    + rewrite filter_cons_False by done. apply IH; [done|].
      apply elem_of_cons in Hin as [Hin|Hin]; [congruence|done].
Qed.

(* --------------------------------------------------------------------- *)
(** *** The paths through the handlers *)

Section Paths.

Variable V : string → Request → option Response.
Variable B : JSON → Exn + string.

(** A rejection by the helper is returned as it is, before anything is
    asked of the session. *)
Lemma rejected_early email req r db :
  V email req = Some r →
  Users.get_user V email req (new_session db) = (Ok r, new_session db)
  ∧ Users.update_user V B email req (new_session db) = (Ok r, new_session db)
  ∧ Users.delete_user V email req (new_session db) = (Ok r, new_session db).
Proof.
  intros H. unfold Users.get_user, Users.update_user, Users.delete_user.
  by rewrite H.
Qed.

Lemma missing_row email req db :
  V email req = None → email ∉ emails db →
  Users.get_user V email req (new_session db)
    = (Ok (Users.not_found email), settled db [SelectUser email])
  ∧ Users.update_user V B email req (new_session db)
    = (Ok (Users.not_found email), settled db [SelectUser email])
  ∧ Users.delete_user V email req (new_session db)
    = (Ok (Users.not_found email), settled db [SelectUser email]).
Proof.
  intros H Hn. unfold Users.get_user, Users.update_user, Users.delete_user.
  rewrite H. run. by rewrite find_user_None.
Qed.

Lemma get_user_found email req db :
  V email req = None → email ∈ emails db →
  Users.get_user V email req (new_session db)
    = (Ok {| status := 200; body := JObj {[ "email" := JStr email ]} |},
       settled db [SelectUser email]).
Proof.
  intros H Hin. unfold Users.get_user. rewrite H. run.
  by rewrite find_user_Some.
Qed.

(** Once the row is found, [update_user] subscripts the body. *)
Lemma update_user_bad_body email req db e :
  V email req = None → email ∈ emails db →
  getitem (json req) "email" = inl e →
  Users.update_user V B email req (new_session db)
    = (Raise e, settled db [SelectUser email]).
Proof.
  intros H Hin He. unfold Users.update_user. rewrite H. run.
  rewrite find_user_Some by done. run. by rewrite He.
Qed.

End Paths.

Lemma create_user_bad_body req db e :
  getitem (json req) "email" = inl e →
  Users.create_user req (new_session db) = (Raise e, new_session db).
Proof. intros He. unfold Users.create_user. run. by rewrite He. Qed.

Lemma create_user_other req db v :
  getitem (json req) "email" = inr v → v ≠ JStr (user_email req) →
  Users.create_user req (new_session db)
    = (Ok {| status := 403;
             body :=
               JObj {[ "message" := JStr "Unauthorized: You can only create yourself" ]} |},
       new_session db).
Proof.
  intros Hv Hne. unfold Users.create_user. run. rewrite Hv. run.
  destruct v as [| | |s| |]; try done.
  rewrite bool_decide_eq_false_2 by congruence. done.
Qed.

Lemma create_user_existing req db e :
  getitem (json req) "email" = inr (JStr e) → user_email req = e → e ∈ emails db →
  Users.create_user req (new_session db)
    = (Ok {| status := 200;
             body := JObj {[ "message" := JStr "User already exists" ]} |},
       settled db [SelectUser e]).
Proof.
  intros Hv Hu Hin. unfold Users.create_user. run. rewrite Hv, Hu. run.
  rewrite bool_decide_eq_true_2 by done. run. by rewrite find_user_Some.
Qed.

Lemma create_user_fresh req db e :
  getitem (json req) "email" = inr (JStr e) → user_email req = e → e ∉ emails db →
  Users.create_user req (new_session db)
    = (Ok {| status := 201;
             body := JObj {[ "message" := JStr "User created successfully" ]} |},
       settled (with_users db (users db ++ [{| email := e |}]))
         [SelectUser e; InsertUser e; Commit]).
Proof.
  intros Hv Hu Hn. unfold Users.create_user. run. rewrite Hv, Hu. run.
  rewrite bool_decide_eq_true_2 by done. run.
  rewrite find_user_None by done. run.
  by rewrite bool_decide_eq_false_2.
Qed.

Lemma untouched_new db : untouched db (new_session db).
Proof. repeat split. constructor. Qed.

Lemma untouched_select db pk : untouched db (settled db [SelectUser pk]).
Proof. repeat split. by repeat constructor. Qed.

(* ===================================================================== *)
(** ** Ownership and existence *)
(* ===================================================================== *)

(** C1.  With the ownership helper as the spec describes it, a request to
    [get_user], [update_user] or [delete_user] whose authenticated email
    differs from the path's email is answered 403, whatever the [User]
    table holds; the session is left as it was opened, so not even the
    lookup of the row was sent. *)
Theorem ownership_mismatch_is_403 (B : JSON → Exn + string)
    (email : string) (req : Request) (db : Database) :
  user_email req ≠ email →
  ∃ r, status r = 403
    ∧ Users.get_user AppUtils.validate_user_access email req (new_session db)
        = (Ok r, new_session db)
    ∧ Users.update_user AppUtils.validate_user_access B email req (new_session db)
        = (Ok r, new_session db)
    ∧ Users.delete_user AppUtils.validate_user_access email req (new_session db)
        = (Ok r, new_session db).
Proof.
  intros Hne.
  exists (with_status (jsonify (JObj {[ "message" := JStr AppUtils.rejection_text ]})) 403).
  split; [done|]. apply rejected_early.
  unfold AppUtils.validate_user_access. by rewrite bool_decide_eq_false_2.
Qed.

Lemma ownership_mismatch_is_403_witness :
  ∃ r, status r = 403
    ∧ Users.get_user AppUtils.validate_user_access "ann@example.com"
        {| user_email := "bob@example.com"; json := JNull |}
        (new_session (with_users empty_db [{| email := "ann@example.com" |}]))
        = (Ok r, new_session (with_users empty_db [{| email := "ann@example.com" |}]))
    ∧ Users.update_user AppUtils.validate_user_access (λ _, inl TypeError)
        "ann@example.com" {| user_email := "bob@example.com"; json := JNull |}
        (new_session (with_users empty_db [{| email := "ann@example.com" |}]))
        = (Ok r, new_session (with_users empty_db [{| email := "ann@example.com" |}]))
    ∧ Users.delete_user AppUtils.validate_user_access "ann@example.com"
        {| user_email := "bob@example.com"; json := JNull |}
        (new_session (with_users empty_db [{| email := "ann@example.com" |}]))
        = (Ok r, new_session (with_users empty_db [{| email := "ann@example.com" |}])).
Proof.
  apply (ownership_mismatch_is_403 (λ _, inl TypeError) "ann@example.com"
           {| user_email := "bob@example.com"; json := JNull |}).
  simpl. discriminate.
Defined.

(** C5.  A request to [get_user], [update_user] or [delete_user] that the
    ownership check lets through and whose email has no row is answered 404
    with a body holding a message and the requested email; only the lookup
    was sent. *)
Theorem missing_user_404 (V : string → Request → option Response)
    (B : JSON → Exn + string) (email : string) (req : Request) (db : Database) :
  V email req = None → email ∉ emails db →
  let r := {| status := 404;
              body := JObj {[ "message" := JStr "User not found";
                              "email" := JStr email ]} |} in
  Users.get_user V email req (new_session db) = (Ok r, settled db [SelectUser email])
  ∧ Users.update_user V B email req (new_session db)
      = (Ok r, settled db [SelectUser email])
  ∧ Users.delete_user V email req (new_session db)
      = (Ok r, settled db [SelectUser email]).
Proof. intros H Hn. by apply missing_row. Qed.

Lemma missing_user_404_witness :
  let V := AppUtils.validate_user_access in
  let B := λ _ : JSON, inl TypeError : Exn + string in
  let req := {| user_email := "ann@example.com"; json := JNull |} in
  let db := with_users empty_db [{| email := "bob@example.com" |}] in
  let r := {| status := 404;
              body := JObj {[ "message" := JStr "User not found";
                              "email" := JStr "ann@example.com" ]} |} in
  Users.get_user V "ann@example.com" req (new_session db)
    = (Ok r, settled db [SelectUser "ann@example.com"])
  ∧ Users.update_user V B "ann@example.com" req (new_session db)
    = (Ok r, settled db [SelectUser "ann@example.com"])
  ∧ Users.delete_user V "ann@example.com" req (new_session db)
    = (Ok r, settled db [SelectUser "ann@example.com"]).
Proof.
  apply (missing_user_404 AppUtils.validate_user_access (λ _, inl TypeError)
           "ann@example.com" {| user_email := "ann@example.com"; json := JNull |}
           (with_users empty_db [{| email := "bob@example.com" |}])).
  - reflexivity.
  - vm_compute. intros H. inversion H as [|? ? ? H']; subst; inversion H'.
Defined.

(* ===================================================================== *)
(** ** Creation *)
(* ===================================================================== *)

(** C4.  A [create_user] request whose body's email is not the
    authenticated email is answered 403 and the session is left as it was
    opened: nothing is looked up, staged or sent, whatever the table
    holds. *)
Theorem create_user_foreign_email_403 (req : Request) (db : Database)
    (m : gmap string JSON) (v : JSON) :
  json req = JObj m → m !! "email" = Some v → v ≠ JStr (user_email req) →
  Users.create_user req (new_session db)
    = (Ok {| status := 403;
             body :=
               JObj {[ "message" := JStr "Unauthorized: You can only create yourself" ]} |},
       new_session db).
Proof.
  intros Hj Hm Hne. apply create_user_other with v; [|done].
  rewrite Hj. by apply getitem_obj.
Qed.

Lemma create_user_foreign_email_403_witness :
  let req := {| user_email := "bob@example.com";
                json := JObj {[ "email" := JStr "ann@example.com" ]} |} in
  let db := with_users empty_db [{| email := "ann@example.com" |}] in
  Users.create_user req (new_session db)
    = (Ok {| status := 403;
             body :=
               JObj {[ "message" := JStr "Unauthorized: You can only create yourself" ]} |},
       new_session db).
Proof.
  apply (create_user_foreign_email_403
           {| user_email := "bob@example.com";
              json := JObj {[ "email" := JStr "ann@example.com" ]} |}
           (with_users empty_db [{| email := "ann@example.com" |}])
           {[ "email" := JStr "ann@example.com" ]} (JStr "ann@example.com")).
  - reflexivity.
  - vm_compute. reflexivity.
  - simpl. discriminate.
Defined.

(** C2.  For a [create_user] request whose body's email is the
    authenticated email [e]:
    - when no row has that email, the handler inserts one, commits and
      answers 201 "User created successfully"; the same request sent again
      is answered 200 "User already exists", inserts nothing, and one row
      with that email is in the table;
    - when a row already has that email, the handler answers 200 "User
      already exists" (an answer, not an exception, so no 500; and not a
      409), sends nothing but the lookup, and the table, whose key is the
      email, keeps its single row for [e]. *)
Theorem create_user_idempotent (req : Request) (db : Database)
    (m : gmap string JSON) (e : string) :
  json req = JObj m → m !! "email" = Some (JStr e) → user_email req = e →
  let created := with_users db (users db ++ [{| email := e |}]) in
  (e ∉ emails db →
     Users.create_user req (new_session db)
       = (Ok {| status := 201;
                body := JObj {[ "message" := JStr "User created successfully" ]} |},
          settled created [SelectUser e; InsertUser e; Commit])
     ∧ Users.create_user req (new_session created)
       = (Ok {| status := 200;
                body := JObj {[ "message" := JStr "User already exists" ]} |},
          settled created [SelectUser e])
     ∧ rows_with e created = 1%nat)
  ∧ (e ∈ emails db →
     Users.create_user req (new_session db)
       = (Ok {| status := 200;
                body := JObj {[ "message" := JStr "User already exists" ]} |},
          settled db [SelectUser e])
     ∧ (wf_db db → rows_with e db = 1%nat)).
Proof.
  intros Hj Hm Hu created.
  assert (Hv : getitem (json req) "email" = inr (JStr e)).
  { rewrite Hj. by apply getitem_obj. }
  split.
  - intros Hn. split; [by apply create_user_fresh|].
    split; [|by apply rows_with_fresh].
    apply create_user_existing; [done..|].
    unfold created. rewrite emails_with_users, fmap_app. set_solver.
  - intros Hin. split; [by apply create_user_existing|].
    intros Hwf. by apply rows_with_unique.
Qed.

Lemma create_user_idempotent_witness :
  let req := {| user_email := "ann@example.com";
                json := JObj {[ "email" := JStr "ann@example.com" ]} |} in
  let db := with_users empty_db [{| email := "bob@example.com" |}] in
  let created :=
    with_users empty_db [{| email := "bob@example.com" |}; {| email := "ann@example.com" |}] in
  Users.create_user req (new_session db)
    = (Ok {| status := 201;
             body := JObj {[ "message" := JStr "User created successfully" ]} |},
       settled created
         [SelectUser "ann@example.com"; InsertUser "ann@example.com"; Commit])
  ∧ Users.create_user req (new_session created)
    = (Ok {| status := 200;
             body := JObj {[ "message" := JStr "User already exists" ]} |},
       settled created [SelectUser "ann@example.com"])
  ∧ rows_with "ann@example.com" created = 1%nat.
Proof.
  apply (create_user_idempotent
           {| user_email := "ann@example.com";
              json := JObj {[ "email" := JStr "ann@example.com" ]} |}
           (with_users empty_db [{| email := "bob@example.com" |}])
           {[ "email" := JStr "ann@example.com" ]} "ann@example.com").
  - reflexivity.
  - vm_compute. reflexivity.
  - reflexivity.
  - compute_done.
Defined.

(** C3.  After a [create_user] request whose body's email is the
    authenticated email [e] and for which no row existed, a [get_user] for
    [e] by the same identity, which the ownership check lets through, is
    answered on the committed state with 200 and the body
    [{"email": e}]. *)
Theorem create_then_get_user (V : string → Request → option Response)
    (req req' : Request) (db : Database) (m : gmap string JSON) (e : string) :
  json req = JObj m → m !! "email" = Some (JStr e) → user_email req = e →
  e ∉ emails db →
  user_email req' = e → V e req' = None →
  ∃ s,
    Users.create_user req (new_session db)
      = (Ok {| status := 201;
               body := JObj {[ "message" := JStr "User created successfully" ]} |}, s)
    ∧ Users.get_user V e req' (new_session (durable s))
      = (Ok {| status := 200; body := JObj {[ "email" := JStr e ]} |},
         settled (durable s) [SelectUser e]).
Proof.
  intros Hj Hm Hu Hn Hu' HV.
  eexists. split.
  - apply create_user_fresh; [|done..]. rewrite Hj. by apply getitem_obj.
  - apply get_user_found; [done|].
    cbn. rewrite emails_with_users, fmap_app. set_solver.
Qed.

Lemma create_then_get_user_witness :
  let req := {| user_email := "ann@example.com";
                json := JObj {[ "email" := JStr "ann@example.com" ]} |} in
  let req' := {| user_email := "ann@example.com"; json := JNull |} in
  ∃ s,
    Users.create_user req (new_session empty_db)
      = (Ok {| status := 201;
               body := JObj {[ "message" := JStr "User created successfully" ]} |}, s)
    ∧ Users.get_user AppUtils.validate_user_access "ann@example.com" req'
        (new_session (durable s))
      = (Ok {| status := 200; body := JObj {[ "email" := JStr "ann@example.com" ]} |},
         settled (durable s) [SelectUser "ann@example.com"]).
Proof.
  apply (create_then_get_user AppUtils.validate_user_access
           {| user_email := "ann@example.com";
              json := JObj {[ "email" := JStr "ann@example.com" ]} |}
           {| user_email := "ann@example.com"; json := JNull |}
           empty_db {[ "email" := JStr "ann@example.com" ]} "ann@example.com").
  - reflexivity.
  - vm_compute. reflexivity.
  - reflexivity.
  - compute_done.
  - reflexivity.
  - reflexivity.
Defined.

(* ===================================================================== *)
(** ** Listing *)
(* ===================================================================== *)

(** C6.  [get_users] answers 200 with an array that has one entry
    [{"email": <row email>}] per row of [User], as many entries as rows,
    for every request: the identity of the caller plays no part. *)
Theorem get_users_lists_every_row (req : Request) (db : Database) :
  let entries := (λ u, JObj {[ "email" := JStr (email u) ]}) <$> users db in
  Users.get_users req (new_session db)
    = (Ok {| status := 200; body := JArr entries |}, settled db [SelectAllUsers])
  ∧ length entries = length (users db)
  ∧ ∀ i u, users db !! i = Some u →
           entries !! i = Some (JObj {[ "email" := JStr (email u) ]}).
Proof.
  intros entries. split; [done|]. split.
  - apply length_fmap.
  - intros i u Hi. unfold entries. by rewrite list_lookup_fmap, Hi.
Qed.

(* ===================================================================== *)
(** ** Cleanup *)
(* ===================================================================== *)

(** Where a held reference can come from. *)
Lemma held_refs_inv db k :
  k ∈ held_refs db →
  (∃ w, w ∈ words db ∧ k = RefWordset (word_wordset_id w))
  ∨ (∃ uw, uw ∈ userwords db
           ∧ (k = RefUser (user_id uw) ∨ k = RefWord (userword_word_id uw)))
  ∨ (∃ rh, rh ∈ recall_history db ∧ k ∈ recall_refs rh).
Proof.
  unfold held_refs. rewrite !elem_of_app, !list_elem_of_bind.
  intros [(w & Hk & Hw)|[(uw & Hk & Huw)|(rh & Hk & Hrh)]].
  - left. exists w. split; [done|]. by apply list_elem_of_singleton in Hk.
  - right; left. exists uw. split; [done|].
    apply elem_of_cons in Hk as [Hk|Hk]; [by left|].
    right. by apply list_elem_of_singleton in Hk.
  - right; right. eauto.
Qed.

Lemma not_referenced_all db (ks : list Ref) :
  (∀ k, k ∈ ks → k ∉ held_refs db) → existsb (referenced db) ks = false.
Proof.
  induction ks as [|k ks IH]; [done|]. intros H. simpl.
  unfold referenced at 1. rewrite bool_decide_eq_false_2 by (apply H; left).
  apply IH. intros k' Hk'. apply H. by right.
Qed.

(** One bulk delete, as an equation on the session. *)
Lemma query_delete_run t s :
  query_delete t s =
    let s' := {| durable := durable s; view := view s; pending := pending s;
                 log := log s ++ [DeleteAll t] |} in
    if existsb (referenced (view s)) (table_keys (view s) t)
    then (Raise IntegrityError, s')
    else (Ok (), {| durable := durable s; view := truncate (view s) t;
                    pending := pending s; log := log s ++ [DeleteAll t] |}).
Proof. run. by destruct (existsb _ _). Qed.

(** No row points to a [UserWord] row once [RecallHistory] is empty. *)
Lemma userword_free db :
  recall_history db = [] →
  existsb (referenced db) (table_keys db TUserWord) = false.
Proof.
  intros Hrh. apply not_referenced_all. intros k Hk Hheld.
  apply list_elem_of_fmap in Hk as (uw & -> & _).
  apply held_refs_inv in Hheld as [(? & _ & ?)|[(? & _ & [?|?])|(rh & Hin & _)]];
    try done.
  rewrite Hrh in Hin. by apply elem_of_nil in Hin.
Qed.

(** No row points to a [Word] row once [RecallHistory] and [UserWord] are
    empty. *)
Lemma word_free db :
  recall_history db = [] → userwords db = [] →
  existsb (referenced db) (table_keys db TWord) = false.
Proof.
  intros Hrh Huw. apply not_referenced_all. intros k Hk Hheld.
  apply list_elem_of_fmap in Hk as (w & -> & _).
  apply held_refs_inv in Hheld as [(? & _ & ?)|[(uw & Hin & _)|(rh & Hin & _)]];
    try done.
  - rewrite Huw in Hin. by apply elem_of_nil in Hin.
  - rewrite Hrh in Hin. by apply elem_of_nil in Hin.
Qed.

(** Nothing is referenced once the three referring tables are empty. *)
Lemma nothing_held db :
  recall_history db = [] → userwords db = [] → words db = [] → held_refs db = [].
Proof. unfold held_refs. by intros -> -> ->. Qed.

Lemma all_free db t :
  recall_history db = [] → userwords db = [] → words db = [] →
  existsb (referenced db) (table_keys db t) = false.
Proof.
  intros Hrh Huw Hw. apply not_referenced_all. intros k _.
  rewrite nothing_held by done. apply not_elem_of_nil.
Qed.

(** C8.  [clear_database] sends its five bulk deletes in the order
    [RecallHistory], [UserWord], [Word], [Wordset], [User] and then one
    commit; whatever rows the five tables hold, and so also when they hold
    a chain of fixture rows pointing to one another, no delete is refused
    by a foreign key, nothing is raised, and every table is empty in the
    committed state. *)
Theorem clear_database_order_no_violation (db : Database) :
  TestUtils.clear_database (new_session db)
    = (Ok (),
       settled empty_db
         [DeleteAll TRecallHistory; DeleteAll TUserWord; DeleteAll TWord;
          DeleteAll TWordset; DeleteAll TUser; Commit]).
Proof.
  unfold TestUtils.clear_database, try_except, mbind, M_bind.
  rewrite query_delete_run. cbn.
  rewrite query_delete_run. cbn -[existsb table_keys].
  rewrite userword_free by done. cbn.
  rewrite query_delete_run. cbn -[existsb table_keys].
  rewrite word_free by done. cbn.
  rewrite query_delete_run. cbn -[existsb table_keys].
  rewrite all_free by done. cbn.
  rewrite query_delete_run. cbn -[existsb table_keys].
  rewrite all_free by done. cbn.
  reflexivity.
Qed.

(** On the fixture chain the order matters: a parent table cannot go
    first. *)
Example parent_first_is_refused :
  fst (query_delete TUser (new_session TestUtils.fixture_chain)) = Raise IntegrityError
  ∧ fst (query_delete TWordset (new_session TestUtils.fixture_chain)) = Raise IntegrityError
  ∧ fst (query_delete TWord (new_session TestUtils.fixture_chain)) = Raise IntegrityError
  ∧ fst (query_delete TUserWord (new_session TestUtils.fixture_chain)) = Raise IntegrityError.
Proof. vm_compute. done. Qed.

Example fixture_chain_cleared :
  durable (snd (TestUtils.clear_database (new_session TestUtils.fixture_chain))) = empty_db.
Proof. vm_compute. done. Qed.

(* ===================================================================== *)
(** ** Update *)
(* ===================================================================== *)

Lemma rename_same e (us : list User) : rename e e us = us.
Proof.
  unfold rename. induction us as [|[e'] us IH]; [done|]. rewrite fmap_cons, IH.
  simpl. case_bool_decide; by subst.
Qed.

Lemma rename_length old new (us : list User) :
  length (rename old new us) = length us.
Proof. apply length_fmap. Qed.

Lemma rename_new old new (us : list User) :
  old ∈ email <$> us → new ∈ email <$> rename old new us.
Proof.
  unfold rename. induction us as [|u us IH]; rewrite ?fmap_cons.
  - by intros ?%elem_of_nil.
  - intros [Heq|Hin]%elem_of_cons.
    + rewrite bool_decide_eq_true_2 by done. by left.
    + right. by apply IH.
Qed.

Lemma rename_old old new (us : list User) :
  new ≠ old → old ∉ email <$> rename old new us.
Proof.
  intros Hne. unfold rename. induction us as [|u us IH]; rewrite ?fmap_cons.
  - apply not_elem_of_nil.
  - apply not_elem_of_cons. split; [|done].
    case_bool_decide; simpl; congruence.
Qed.

Section UpdatePaths.

Variable V : string → Request → option Response.
Variable B : JSON → Exn + string.

(** The body's email is the row's own: nothing to send but the commit. *)
Lemma update_user_same email req db :
  V email req = None → email ∈ emails db →
  getitem (json req) "email" = inr (JStr email) →
  Users.update_user V B email req (new_session db)
    = (Ok {| status := 200;
             body := JObj {[ "message" := JStr "User updated successfully" ]} |},
       settled db [SelectUser email; Commit]).
Proof.
  intros H Hin Hv. unfold Users.update_user. rewrite H. run.
  rewrite find_user_Some by done. run. rewrite Hv. run.
  by rewrite bool_decide_eq_true_2.
Qed.

(** The body's email is bound to a key that no row has: one [UPDATE], then
    the commit. *)
Lemma update_user_rebound email req db v new :
  V email req = None → email ∈ emails db →
  getitem (json req) "email" = inr v → Users.bind_email B v = inr new →
  new ≠ email → new ∉ emails db →
  Users.update_user V B email req (new_session db)
    = (Ok {| status := 200;
             body := JObj {[ "message" := JStr "User updated successfully" ]} |},
       settled (with_users db (rename email new (users db)))
         [SelectUser email; UpdateUser email new; Commit]).
Proof.
  intros H Hin Hv Hb Hne Hfresh. unfold Users.update_user. rewrite H. run.
  rewrite find_user_Some by done. run. rewrite Hv. run.
  unfold stage. cbn. rewrite Hb. run.
  rewrite bool_decide_eq_false_2 by done. run.
  by rewrite bool_decide_eq_false_2.
Qed.

Lemma update_user_renamed email req db new :
  V email req = None → email ∈ emails db →
  getitem (json req) "email" = inr (JStr new) →
  new ≠ email → new ∉ emails db →
  Users.update_user V B email req (new_session db)
    = (Ok {| status := 200;
             body := JObj {[ "message" := JStr "User updated successfully" ]} |},
       settled (with_users db (rename email new (users db)))
         [SelectUser email; UpdateUser email new; Commit]).
Proof. intros H Hin Hv. by apply update_user_rebound with (v := JStr new). Qed.

(** The body's email is the key of another row: the [UPDATE] is refused and
    the exception leaves the handler. *)
Lemma update_user_duplicate email req db new :
  V email req = None → email ∈ emails db →
  getitem (json req) "email" = inr (JStr new) →
  new ≠ email → new ∈ emails db →
  Users.update_user V B email req (new_session db)
    = (Raise IntegrityError,
       settled db [SelectUser email; UpdateUser email new; Rollback]).
Proof.
  intros H Hin Hv Hne Hdup. unfold Users.update_user. rewrite H. run.
  rewrite find_user_Some by done. run. rewrite Hv. run.
  rewrite bool_decide_eq_false_2 by done. run.
  by rewrite bool_decide_eq_true_2.
Qed.

End UpdatePaths.

(** C7, as amended.  When an [update_user] request passes the ownership
    check, its row exists, and its body is an object whose ["email"] is a
    string that is either the row's own email or an email no row has, the
    handler overwrites the row's [email] with the body's email (the primary
    key changes, whether or not rows of other tables point to the row),
    commits once and answers 200 with the message
    ["User updated successfully"]. *)
Theorem update_user_overwrites_email (V : string → Request → option Response)
    (B : JSON → Exn + string) (email : string) (req : Request) (db : Database)
    (m : gmap string JSON) (new : string) :
  V email req = None → email ∈ emails db →
  json req = JObj m → m !! "email" = Some (JStr new) →
  new = email ∨ new ∉ emails db →
  let db' := with_users db (rename email new (users db)) in
  Users.update_user V B email req (new_session db)
    = (Ok {| status := 200;
             body := JObj {[ "message" := JStr "User updated successfully" ]} |},
       settled db'
         (SelectUser email
            :: ((if bool_decide (new = email) then [] else [UpdateUser email new])
                  ++ [Commit])))
  ∧ new ∈ emails db'
  ∧ (new ≠ email → email ∉ emails db')
  ∧ length (users db') = length (users db).
Proof.
  intros H Hin Hj Hm Hcase db'.
  assert (Hv : getitem (json req) "email" = inr (JStr new)).
  { rewrite Hj. by apply getitem_obj. }
  split; [|split; [|split]].
  - case_bool_decide as Hsame.
    + subst new. unfold db'. rewrite rename_same, with_users_id.
      by apply update_user_same.
    + destruct Hcase as [?|Hfresh]; [done|].
      by apply update_user_renamed.
  - unfold db'. rewrite emails_with_users. by apply rename_new.
  - intros Hne. unfold db'. rewrite emails_with_users. by apply rename_old.
  - apply rename_length.
Qed.

Lemma update_user_overwrites_email_witness :
  let req := {| user_email := "ann@example.com";
                json := JObj {[ "email" := JStr "ann@example.org" ]} |} in
  let db := with_users empty_db
              [{| email := "bob@example.com" |}; {| email := "ann@example.com" |}] in
  let db' := with_users empty_db
               [{| email := "bob@example.com" |}; {| email := "ann@example.org" |}] in
  Users.update_user AppUtils.validate_user_access (λ _, inl TypeError)
      "ann@example.com" req (new_session db)
    = (Ok {| status := 200;
             body := JObj {[ "message" := JStr "User updated successfully" ]} |},
       settled db'
         [SelectUser "ann@example.com";
          UpdateUser "ann@example.com" "ann@example.org"; Commit]).
Proof.
  refine (proj1 (update_user_overwrites_email AppUtils.validate_user_access
           (λ _, inl TypeError) "ann@example.com"
           {| user_email := "ann@example.com";
              json := JObj {[ "email" := JStr "ann@example.org" ]} |}
           (with_users empty_db
              [{| email := "bob@example.com" |}; {| email := "ann@example.com" |}])
           {[ "email" := JStr "ann@example.org" ]} "ann@example.org" _ _ _ _ _)).
  - reflexivity.
  - compute_done.
  - reflexivity.
  - vm_compute. reflexivity.
  - right. compute_done.
Defined.

(** C7, counterexample to the claim as first stated.  The request passes
    the ownership check and its row exists, but the body has no ["email"]:
    [data['email']] raises [KeyError] and no 200 is returned. *)
Lemma update_user_without_email_raises :
  let db := with_users empty_db [{| email := "ann@example.com" |}] in
  AppUtils.validate_user_access "ann@example.com"
      {| user_email := "ann@example.com"; json := JObj ∅ |} = None
  ∧ "ann@example.com" ∈ emails db
  ∧ Users.update_user AppUtils.validate_user_access (λ _, inl TypeError)
      "ann@example.com" {| user_email := "ann@example.com"; json := JObj ∅ |}
      (new_session db)
    = (Raise (KeyError "email"), settled db [SelectUser "ann@example.com"]).
Proof. split; [done|]. split; [compute_done|]. vm_compute. reflexivity. Qed.

(** Another request of that kind that ends in an exception: the body's
    email is the key of another row. *)
Example update_user_to_taken_email :
  let db := with_users empty_db
              [{| email := "bob@example.com" |}; {| email := "ann@example.com" |}] in
  Users.update_user AppUtils.validate_user_access (λ _, inl TypeError)
      "ann@example.com"
      {| user_email := "ann@example.com";
         json := JObj {[ "email" := JStr "bob@example.com" ]} |}
      (new_session db)
    = (Raise IntegrityError,
       settled db [SelectUser "ann@example.com";
                   UpdateUser "ann@example.com" "bob@example.com"; Rollback]).
Proof. vm_compute. reflexivity. Qed.

(* ===================================================================== *)
(** ** Rejections change nothing *)
(* ===================================================================== *)

Lemma bind_Ok_inv {A C} (c : M A) (k : A → M C) (s s' : Session) (r : C) :
  (c ≫= k) s = (Ok r, s') → ∃ a s1, c s = (Ok a, s1) ∧ k a s1 = (Ok r, s').
Proof.
  unfold mbind, M_bind. destruct (c s) as [[a|e] s1]; [eauto|done].
Qed.

(** Whatever the commit does, a handler that ends in
    [commit; return jsonify(...)] answers with that response or raises. *)
Lemma after_commit (c : M ()) (r0 r : Response) (s s' : Session) :
  (c;; commit;; mret r0) s = (Ok r, s') → r = r0.
Proof.
  intros (_ & s1 & _ & (_ & s2 & _ & Hret)%bind_Ok_inv)%bind_Ok_inv.
  by injection Hret as <- _.
Qed.

(** C9.  Whenever a handler of the blueprint answers 403 or 404, the
    session differs from the one the request opened by reads only: the
    committed state and the transaction's view are the database as it was,
    nothing is staged, and no insert, update, delete or commit was sent. *)
Theorem rejections_leave_database_unchanged
    (V : string → Request → option Response) (B : JSON → Exn + string)
    (route : Users.Route) (req : Request) (db : Database)
    (r : Response) (s' : Session) :
  Users.dispatch V B route req (new_session db) = (Ok r, s') →
  status r = 403 ∨ status r = 404 →
  untouched db s'.
Proof.
  intros Hrun Hst.
  assert (Hno : ∀ r0, status r0 = 200 ∨ status r0 = 201 → r = r0 → False).
  { intros r0 H0 ->. destruct Hst, H0; congruence. }
  destruct route as [|email|email|email|]; simpl in Hrun.
  - (* create_user *)
    destruct (getitem (json req) "email") as [e|v] eqn:Hv.
    { by rewrite (create_user_bad_body _ _ _ Hv) in Hrun. }
    assert (Hother : v ≠ JStr (user_email req) → untouched db s').
    { intros Hne. rewrite (create_user_other _ _ _ Hv Hne) in Hrun.
      injection Hrun as _ <-. apply untouched_new. }
    destruct v as [| | |e| |]; try (by apply Hother).
    destruct (decide (e = user_email req)) as [->|Hne]; [|apply Hother; congruence].
    destruct (decide (user_email req ∈ emails db)) as [Hin|Hn].
    + rewrite (create_user_existing _ _ _ Hv eq_refl Hin) in Hrun.
      injection Hrun as <- _. destruct Hst; discriminate.
    + rewrite (create_user_fresh _ _ _ Hv eq_refl Hn) in Hrun.
      injection Hrun as <- _. destruct Hst; discriminate.
  - (* get_user *)
    destruct (V email req) as [r0|] eqn:HV.
    { rewrite (proj1 (rejected_early V B _ _ _ db HV)) in Hrun.
      injection Hrun as _ <-. apply untouched_new. }
    destruct (decide (email ∈ emails db)) as [Hin|Hn].
    + rewrite (get_user_found V _ _ _ HV Hin) in Hrun.
      injection Hrun as <- _. destruct Hst; discriminate.
    + rewrite (proj1 (missing_row V B _ _ _ HV Hn)) in Hrun.
      injection Hrun as _ <-. apply untouched_select.
  - (* update_user *)
    destruct (V email req) as [r0|] eqn:HV.
    { rewrite (proj1 (proj2 (rejected_early V B _ _ _ db HV))) in Hrun.
      injection Hrun as _ <-. apply untouched_new. }
    destruct (decide (email ∈ emails db)) as [Hin|Hn].
    + exfalso. unfold Users.update_user in Hrun. rewrite HV in Hrun.
      apply bind_Ok_inv in Hrun as (u & s1 & Hget & Hrun).
      rewrite session_get_run in Hget. cbn in Hget. rewrite find_user_Some in Hget by done.
      injection Hget as <- <-.
      apply bind_Ok_inv in Hrun as (v & s2 & _ & Hrun).
      apply after_commit in Hrun. eapply Hno; [|done]. by left.
    + rewrite (proj1 (proj2 (missing_row V B _ _ _ HV Hn))) in Hrun.
      injection Hrun as _ <-. apply untouched_select.
  - (* delete_user *)
    destruct (V email req) as [r0|] eqn:HV.
    { rewrite (proj2 (proj2 (rejected_early V B _ _ _ db HV))) in Hrun.
      injection Hrun as _ <-. apply untouched_new. }
    destruct (decide (email ∈ emails db)) as [Hin|Hn].
    + exfalso. unfold Users.delete_user in Hrun. rewrite HV in Hrun.
      apply bind_Ok_inv in Hrun as (u & s1 & Hget & Hrun).
      rewrite session_get_run in Hget. cbn in Hget. rewrite find_user_Some in Hget by done.
      injection Hget as <- <-.
      apply after_commit in Hrun. eapply Hno; [|done]. by left.
    + rewrite (proj2 (proj2 (missing_row V B _ _ _ HV Hn))) in Hrun.
      injection Hrun as _ <-. apply untouched_select.
  - (* get_users *)
    exfalso. injection Hrun as <- _. destruct Hst; discriminate.
Qed.

Lemma rejections_leave_database_unchanged_witness :
  let db := with_users empty_db [{| email := "bob@example.com" |}] in
  untouched db (settled db [SelectUser "ann@example.com"]).
Proof.
  apply (rejections_leave_database_unchanged AppUtils.validate_user_access
           (λ _, inl TypeError) (Users.DeleteUser "ann@example.com")
           {| user_email := "ann@example.com"; json := JNull |}
           (with_users empty_db [{| email := "bob@example.com" |}])
           (Users.not_found "ann@example.com")).
  - vm_compute. reflexivity.
  - right. reflexivity.
Defined.

(* ===================================================================== *)
(** ** The body's email is read unguarded *)
(* ===================================================================== *)





(* ===================================================================== *)
(** ** The key of [User] stays unique *)
(* ===================================================================== *)

(** The hypothesis [wf_db] used above is an invariant of the system: every
    handler and the cleanup keep it, whether they return or raise. *)

Lemma rename_emails old new (us : list User) x :
  x ∈ email <$> rename old new us → x = new ∨ x ∈ email <$> us.
Proof.
  unfold rename. induction us as [|u us IH]; rewrite ?fmap_cons.
  - by intros ?%elem_of_nil.
  - intros [->|Hin]%elem_of_cons.
    + case_bool_decide; [by left|]. right. by left.
    + destruct (IH Hin) as [?|?]; [by left|]. right. by right.
Qed.

Lemma rename_absent old new (us : list User) :
  old ∉ email <$> us → rename old new us = us.
Proof.
  unfold rename. induction us as [|u us IH]; [done|]. rewrite !fmap_cons.
  intros [Hne Hn]%not_elem_of_cons.
  rewrite bool_decide_eq_false_2 by congruence. by rewrite IH.
Qed.

Lemma rename_NoDup old new (us : list User) :
  new ∉ email <$> us → NoDup (email <$> us) → NoDup (email <$> rename old new us).
Proof.
  induction us as [|u us IH]; [done|]. rewrite fmap_cons.
  intros [Hne Hn]%not_elem_of_cons [Hu Hnd]%NoDup_cons.
  unfold rename. rewrite !fmap_cons. fold (rename old new us).
  apply NoDup_cons. case_bool_decide as Hold; simpl.
  - subst old. by rewrite rename_absent.
  - split; [|by apply IH].
    intros [Heq|Hin]%rename_emails; [by apply Hne|done].
Qed.

Lemma remove_NoDup pk (us : list User) :
  NoDup (email <$> us) → NoDup (email <$> remove pk us).
Proof.
  unfold remove. induction us as [|u us IH]; [done|]. rewrite fmap_cons.
  intros [Hu Hnd]%NoDup_cons. destruct (decide (email u ≠ pk)).
  - rewrite filter_cons_True by done. rewrite fmap_cons. apply NoDup_cons.
    split; [|by apply IH].
    intros (u' & Heq & [_ Hin]%list_elem_of_filter)%list_elem_of_fmap.
    apply Hu. rewrite Heq. by apply list_elem_of_fmap_2.
  - rewrite filter_cons_False by done. by apply IH.
Qed.

Lemma truncate_wf db t : wf_db db → wf_db (truncate db t).
Proof. unfold wf_db, emails. destruct t; simpl; [done..|constructor]. Qed.

Section Keeps.

Context {A C : Type}.

Lemma keeps_ret (a : A) : keeps (mret a : M A).
Proof. by intros s o s' Hs [= <- <-]. Qed.

Lemma keeps_raise (e : Exn) : keeps (raise e : M A).
Proof. by intros s o s' Hs [= <- <-]. Qed.

Lemma keeps_lift (r : Exn + A) : keeps (lift r).
Proof. destruct r; [apply keeps_raise|apply keeps_ret]. Qed.

Lemma keeps_bind (c : M A) (k : A → M C) :
  keeps c → (∀ a, keeps (k a)) → keeps (c ≫= k).
Proof.
  intros Hc Hk s o s' Hs. unfold mbind, M_bind.
  destruct (c s) as [[a|e] s1] eqn:Hrun.
  - apply (Hk a). by apply Hc in Hrun.
  - intros [= <- <-]. by apply Hc in Hrun.
Qed.

Lemma keeps_try (body : M A) (handler : Exn → M A) :
  keeps body → (∀ e, keeps (handler e)) → keeps (try_except body handler).
Proof.
  intros Hb Hh s o s' Hs. unfold try_except.
  destruct (body s) as [[a|e] s1] eqn:Hrun.
  - intros [= <- <-]. by apply Hb in Hrun.
  - apply (Hh e). by apply Hb in Hrun.
Qed.

End Keeps.

Lemma keeps_send st : keeps (send st).
Proof. by intros s o s' Hs [= <- <-]. Qed.

Lemma keeps_stage c : keeps (stage c).
Proof. by intros s o s' Hs [= <- <-]. Qed.

Lemma keeps_take_pending : keeps take_pending.
Proof. by intros s o s' Hs [= <- <-]. Qed.

Lemma keeps_make_durable : keeps make_durable.
Proof. intros s o s' [_ Hv] [= <- <-]. by split. Qed.

Lemma keeps_discard : keeps discard.
Proof. intros s o s' [Hd _] [= <- <-]. by split. Qed.

Lemma keeps_session_get pk : keeps (session_get pk).
Proof. by intros s o s' Hs [= <- <-]. Qed.

Lemma keeps_query_first pk : keeps (query_filter_by_email_first pk).
Proof. by intros s o s' Hs [= <- <-]. Qed.

Lemma keeps_query_all : keeps query_all.
Proof. by intros s o s' Hs [= <- <-]. Qed.

Lemma keeps_apply_change c : keeps (apply_change c).
Proof.
  intros s o s' [Hd Hv]. unfold key_unique, wf_db in *.
  destruct c as [u|pk [e|new]|pk]; run.
  - case_bool_decide as Hdup; intros [= <- <-]; [done|]. split; [done|].
    simpl. rewrite emails_with_users, fmap_app. apply NoDup_app.
    split; [done|]. split; [|apply NoDup_singleton].
    intros x Hx ->%list_elem_of_singleton. done.
  - by intros [= <- <-].
  - case_bool_decide; [by intros [= <- <-]|].
    case_bool_decide as Hdup; intros [= <- <-]; [done|]. split; [done|].
    simpl. rewrite emails_with_users. by apply rename_NoDup.
  - destruct (referenced _ _); intros [= <- <-]; [done|]. split; [done|].
    simpl. rewrite emails_with_users. by apply remove_NoDup.
Qed.

Lemma keeps_apply_changes cs : keeps (apply_changes cs).
Proof.
  induction cs as [|c cs IH]; simpl.
  - apply keeps_ret.
  - apply keeps_bind; [apply keeps_apply_change|done].
Qed.

Create HintDb keeps.
#[global] Hint Resolve keeps_ret keeps_raise keeps_lift keeps_send keeps_stage
  keeps_take_pending keeps_make_durable keeps_discard keeps_session_get
  keeps_query_first keeps_query_all keeps_apply_changes : keeps.

Lemma keeps_rollback : keeps rollback.
Proof. apply keeps_bind; auto with keeps. Qed.

Lemma keeps_flush : keeps flush.
Proof.
  apply keeps_try; [|intros e]; apply keeps_bind;
    auto using keeps_rollback with keeps.
Qed.

Lemma keeps_commit : keeps commit.
Proof.
  apply keeps_bind; [apply keeps_flush|intros _].
  apply keeps_bind; auto with keeps.
Qed.

Lemma keeps_query_delete t : keeps (query_delete t).
Proof.
  intros s o s' [Hd Hv]. rewrite query_delete_run. cbv zeta.
  destruct (existsb _ _); intros [= <- <-]; [done|].
  split; [done|]. by apply truncate_wf.
Qed.

#[global] Hint Resolve keeps_commit keeps_rollback keeps_query_delete : keeps.

(** Close a goal [keeps c] for a straight-line [c] built from the steps
    above. *)
Ltac keeps_seq :=
  repeat first
    [ solve [auto with keeps]
    | apply keeps_bind; [solve [auto with keeps]|intros ?] ].

(** Every route keeps the key unique. *)
Lemma keeps_dispatch (V : string → Request → option Response)
    (B : JSON → Exn + string) (route : Users.Route) (req : Request) :
  keeps (Users.dispatch V B route req).
Proof.
  destruct route as [|email|email|email|]; simpl.
  - unfold Users.create_user. apply keeps_bind; [auto with keeps|].
    intros [| | |e| |]; auto with keeps.
    destruct (negb _); [auto with keeps|].
    apply keeps_bind; [auto with keeps|]. intros [u|]; keeps_seq.
  - unfold Users.get_user. destruct (V email req); [auto with keeps|].
    apply keeps_bind; [auto with keeps|]. intros [u|]; auto with keeps.
  - unfold Users.update_user. destruct (V email req); [auto with keeps|].
    apply keeps_bind; [auto with keeps|]. intros [u|]; keeps_seq.
  - unfold Users.delete_user. destruct (V email req); [auto with keeps|].
    apply keeps_bind; [auto with keeps|]. intros [u|]; keeps_seq.
  - unfold Users.get_users. keeps_seq.
Qed.

Lemma keeps_clear_database : keeps TestUtils.clear_database.
Proof.
  apply keeps_try; [|intros e]; keeps_seq.
Qed.

(** X7.  From a database whose key is unique, a request leaves a committed state
    whose key is unique, whatever the route, the body and the outcome. *)
Corollary requests_keep_key_unique (V : string → Request → option Response)
    (B : JSON → Exn + string) (route : Users.Route) (req : Request)
    (db : Database) (o : Outcome Response) (s' : Session) :
  wf_db db →
  Users.dispatch V B route req (new_session db) = (o, s') →
  wf_db (durable s').
Proof.
  intros Hwf Hrun. by apply (keeps_dispatch V B route req) in Hrun as [? _].
Qed.

(* ===================================================================== *)
(** ** Deletion *)
(* ===================================================================== *)



Lemma remove_absent pk (us : list User) : pk ∉ email <$> us → remove pk us = us.
Proof.
  unfold remove. induction us as [|u us IH]; [done|]. rewrite fmap_cons.
  intros [Hne Hn]%not_elem_of_cons.
  rewrite filter_cons_True by congruence. by rewrite IH.
Qed.

Lemma delete_user_applied (V : string → Request → option Response)
    (email : string) (req : Request) (db : Database) :
  V email req = None → email ∈ emails db → referenced db (RefUser email) = false →
  Users.delete_user V email req (new_session db)
    = (Ok {| status := 200;
             body := JObj {[ "message" := JStr "User deleted successfully" ]} |},
       settled (with_users db (remove email (users db)))
         [SelectUser email; Orm.DeleteUser email; Commit]).
Proof.
  intros HV Hin Hfree. unfold Users.delete_user. rewrite HV. run.
  rewrite find_user_Some by done. run. by rewrite Hfree.
Qed.



(** X2.  Creating a user and then deleting it gives back the database as it
    was: the new row went to the end of the table and is the one row the
    deletion removes. *)
Theorem create_then_delete_restores (V : string → Request → option Response)
    (req req' : Request) (db : Database) (m : gmap string JSON) (e : string) :
  json req = JObj m → m !! "email" = Some (JStr e) → user_email req = e →
  e ∉ emails db →
  V e req' = None → referenced db (RefUser e) = false →
  ∃ s1 s2 r1 r2,
    Users.create_user req (new_session db) = (Ok r1, s1)
    ∧ Users.delete_user V e req' (new_session (durable s1)) = (Ok r2, s2)
    ∧ status r1 = 201 ∧ status r2 = 200
    ∧ durable s2 = db.
Proof.
  intros Hj Hm Hu Hn HV Hfree.
  assert (Hv : getitem (json req) "email" = inr (JStr e)).
  { rewrite Hj. by apply getitem_obj. }
  set (db1 := with_users db (users db ++ [{| email := e |}])).
  assert (Hin1 : e ∈ emails db1).
  { unfold db1. rewrite emails_with_users, fmap_app. set_solver. }
  assert (Hfree1 : referenced db1 (RefUser e) = false) by done.
  pose proof (delete_user_applied V e req' db1 HV Hin1 Hfree1) as Hdel.
  eexists _, _, _, _. split; [by apply create_user_fresh|].
  split; [exact Hdel|]. split; [done|]. split; [done|].
  cbn. unfold db1, with_users, remove. cbn.
  rewrite filter_app, filter_cons_False, filter_nil, app_nil_r by (simpl; tauto).
  fold (remove e (users db)). rewrite remove_absent by done. by destruct db.
Qed.

Lemma create_then_delete_restores_witness :
  let req := {| user_email := "ann@example.com";
                json := JObj {[ "email" := JStr "ann@example.com" ]} |} in
  let db := with_users empty_db [{| email := "bob@example.com" |}] in
  ∃ s1 s2 r1 r2,
    Users.create_user req (new_session db) = (Ok r1, s1)
    ∧ Users.delete_user AppUtils.validate_user_access "ann@example.com" req
        (new_session (durable s1)) = (Ok r2, s2)
    ∧ status r1 = 201 ∧ status r2 = 200
    ∧ durable s2 = db.
Proof.
  apply (create_then_delete_restores AppUtils.validate_user_access
           {| user_email := "ann@example.com";
              json := JObj {[ "email" := JStr "ann@example.com" ]} |}
           {| user_email := "ann@example.com";
              json := JObj {[ "email" := JStr "ann@example.com" ]} |}
           (with_users empty_db [{| email := "bob@example.com" |}])
           {[ "email" := JStr "ann@example.com" ]} "ann@example.com").
  - reflexivity.
  - vm_compute. reflexivity.
  - reflexivity.
  - compute_done.
  - reflexivity.
  - vm_compute. reflexivity.
Defined.

(* ===================================================================== *)
(** ** Update, then read *)
(* ===================================================================== *)

(** X3.  An [update_user] that passes the ownership check, finds its row,
    and whose body's ["email"] is bound (a string to itself, another value
    by the driver) to an email that differs from the row's and that no row
    has, re-keys the row, whether or not rows of other tables point to it:
    the answer is 200 with the message ["User updated successfully"], and
    in the state it commits a [get_user] for the old email is answered 404
    and one for the new email 200 with the new email (each by a request
    the ownership check lets through). *)
Theorem update_then_get_user (V : string → Request → option Response)
    (B : JSON → Exn + string) (email new : string) (req req_old req_new : Request)
    (db : Database) (v : JSON) :
  V email req = None → email ∈ emails db →
  getitem (json req) "email" = inr v → Users.bind_email B v = inr new →
  new ≠ email → new ∉ emails db →
  V email req_old = None → V new req_new = None →
  ∃ s,
    Users.update_user V B email req (new_session db)
      = (Ok {| status := 200;
               body := JObj {[ "message" := JStr "User updated successfully" ]} |}, s)
    ∧ Users.get_user V email req_old (new_session (durable s))
      = (Ok {| status := 404;
               body := JObj {[ "message" := JStr "User not found";
                               "email" := JStr email ]} |},
         settled (durable s) [SelectUser email])
    ∧ Users.get_user V new req_new (new_session (durable s))
      = (Ok {| status := 200; body := JObj {[ "email" := JStr new ]} |},
         settled (durable s) [SelectUser new]).
Proof.
  intros HV Hin Hv Hb Hne Hfresh Hold Hnew.
  eexists. split; [by eapply update_user_rebound|]. cbn. split.
  - apply (missing_row V B); [done|].
    rewrite emails_with_users. by apply rename_old.
  - apply get_user_found; [done|].
    rewrite emails_with_users. by apply rename_new.
Qed.

Lemma update_then_get_user_witness :
  let V := AppUtils.validate_user_access in
  let req := {| user_email := "test@example.com";
                json := JObj {[ "email" := JStr "test@example.org" ]} |} in
  let req_new := {| user_email := "test@example.org"; json := JNull |} in
  ∃ s,
    Users.update_user V (λ _, inl TypeError) "test@example.com" req
        (new_session TestUtils.fixture_chain)
      = (Ok {| status := 200;
               body := JObj {[ "message" := JStr "User updated successfully" ]} |}, s)
    ∧ Users.get_user V "test@example.com" req (new_session (durable s))
      = (Ok {| status := 404;
               body := JObj {[ "message" := JStr "User not found";
                               "email" := JStr "test@example.com" ]} |},
         settled (durable s) [SelectUser "test@example.com"])
    ∧ Users.get_user V "test@example.org" req_new (new_session (durable s))
      = (Ok {| status := 200; body := JObj {[ "email" := JStr "test@example.org" ]} |},
         settled (durable s) [SelectUser "test@example.org"]).
Proof.
  apply (update_then_get_user AppUtils.validate_user_access (λ _, inl TypeError)
           "test@example.com" "test@example.org"
           {| user_email := "test@example.com";
              json := JObj {[ "email" := JStr "test@example.org" ]} |}
           {| user_email := "test@example.com";
              json := JObj {[ "email" := JStr "test@example.org" ]} |}
           {| user_email := "test@example.org"; json := JNull |}
           TestUtils.fixture_chain (JStr "test@example.org")).
  - reflexivity.
  - compute_done.
  - vm_compute. reflexivity.
  - reflexivity.
  - discriminate.
  - compute_done.
  - reflexivity.
  - reflexivity.
Defined.

(** The rows of [tests/utils.py]'s fixtures, re-keyed: the [UserWord] row
    keeps the old email, which is no user's any more. *)
Example update_user_on_fixture_chain :
  let req := {| user_email := "test@example.com";
                json := JObj {[ "email" := JStr "test@example.org" ]} |} in
  let db' := durable (snd (Users.update_user AppUtils.validate_user_access
                             (λ _, inl TypeError) "test@example.com" req
                             (new_session TestUtils.fixture_chain))) in
  emails db' = ["test@example.org"]
  ∧ user_id <$> userwords db' = ["test@example.com"]
  ∧ referenced db' (RefUser "test@example.com") = true.
Proof. vm_compute. done. Qed.

(* ===================================================================== *)
(** ** What a request can leave behind *)
(* ===================================================================== *)

Lemma bind_Raise_inv {A C} (c : M A) (k : A → M C) (s s' : Session) (e : Exn) :
  (c ≫= k) s = (Raise e, s') →
  c s = (Raise e, s') ∨ ∃ a s1, c s = (Ok a, s1) ∧ k a s1 = (Raise e, s').
Proof.
  unfold mbind, M_bind. destruct (c s) as [[a|e0] s1]; [eauto|].
  intros [= <- <-]. by left.
Qed.

Lemma not_commit_snoc (stmts : list Stmt) (st : Stmt) :
  Commit ∉ stmts → st ≠ Commit → Commit ∉ stmts ++ [st].
Proof.
  intros Hn Hne [?|Hin%list_elem_of_singleton]%elem_of_app; [done|].
  by apply Hne.
Qed.

(** A commit of one staged change, on a session that has only read so far:
    it either goes through, or raises with the transaction rolled back,
    nothing staged and no [Commit] sent. *)
Lemma commit_single db stmts c o s' :
  Commit ∉ stmts →
  commit {| durable := db; view := db; pending := [c]; log := stmts |} = (o, s') →
  o = Ok ()
  ∨ (∃ e, o = Raise e) ∧ durable s' = db ∧ view s' = db ∧ pending s' = []
    ∧ Commit ∉ log s'.
Proof.
  intros Hlog.
  assert (Hrolled : ∀ st, st ≠ Commit → Commit ∉ (stmts ++ [st]) ++ [Rollback]).
  { intros st Hst. by do 2 (apply not_commit_snoc; [|done]). }
  destruct c as [u|pk [e|new]|pk]; run.
  - case_bool_decide; run; intros [= <- <-]; [right|by left].
    split; [eauto|]. repeat split. cbn. by apply Hrolled.
  - intros [= <- <-]. right. split; [eauto|]. repeat split. cbn.
    by apply not_commit_snoc.
  - case_bool_decide; run; [intros [= <- <-]; by left|].
    case_bool_decide; run; intros [= <- <-]; [right|by left].
    split; [eauto|]. repeat split. cbn. by apply Hrolled.
  - destruct (referenced _ _); run; intros [= <- <-]; [right|by left].
    split; [eauto|]. repeat split. cbn. by apply Hrolled.
Qed.

(** A handler that ends in [stage; commit; return] and raises has committed
    nothing. *)
Lemma staged_commit_raises db stmts c (r0 : Response) e s' :
  Commit ∉ stmts →
  (stage c;; commit;; mret r0) (settled db stmts) = (Raise e, s') →
  durable s' = db ∧ view s' = db ∧ pending s' = [] ∧ Commit ∉ log s'.
Proof.
  intros Hlog [Hstage|([] & s1 & Hstage & Hrest)]%bind_Raise_inv; [done|].
  cbv [stage settled] in Hstage. simplify_eq/=.
  apply bind_Raise_inv in Hrest as [Hc|([] & s2 & _ & Hret)]; [|done].
  apply commit_single in Hc as [?|(_ & ?)]; done.
Qed.

(** X4.  A request that ends in an exception has committed nothing: the
    committed state is the database as it was, the transaction is rolled
    back to it, nothing is staged and no [Commit] was sent. *)
Theorem failed_requests_commit_nothing
    (V : string → Request → option Response) (B : JSON → Exn + string)
    (route : Users.Route) (req : Request) (db : Database) (e : Exn) (s' : Session) :
  Users.dispatch V B route req (new_session db) = (Raise e, s') →
  durable s' = db ∧ view s' = db ∧ pending s' = [] ∧ Commit ∉ log s'.
Proof.
  assert (Hsel : ∀ pk, Commit ∉ [SelectUser pk]).
  { by intros pk ?%list_elem_of_singleton. }
  intros Hrun. destruct route as [|email|email|email|]; simpl in Hrun.
  - (* create_user *)
    destruct (getitem (json req) "email") as [e0|v] eqn:Hv.
    { rewrite (create_user_bad_body _ _ _ Hv) in Hrun. injection Hrun as _ <-.
      repeat split. apply not_elem_of_nil. }
    exfalso.
    assert (Hother : v ≠ JStr (user_email req) → False).
    { intros Hne. by rewrite (create_user_other _ _ _ Hv Hne) in Hrun. }
    destruct v as [| | |e1| |]; try (by apply Hother).
    destruct (decide (e1 = user_email req)) as [->|Hne]; [|apply Hother; congruence].
    destruct (decide (user_email req ∈ emails db)) as [Hin|Hn].
    + by rewrite (create_user_existing _ _ _ Hv eq_refl Hin) in Hrun.
    + by rewrite (create_user_fresh _ _ _ Hv eq_refl Hn) in Hrun.
  - (* get_user *)
    exfalso. destruct (V email req) as [r0|] eqn:HV.
    { by rewrite (proj1 (rejected_early V B _ _ _ db HV)) in Hrun. }
    destruct (decide (email ∈ emails db)) as [Hin|Hn].
    + by rewrite (get_user_found V _ _ _ HV Hin) in Hrun.
    + by rewrite (proj1 (missing_row V B _ _ _ HV Hn)) in Hrun.
  - (* update_user *)
    destruct (V email req) as [r0|] eqn:HV.
    { by rewrite (proj1 (proj2 (rejected_early V B _ _ _ db HV))) in Hrun. }
    destruct (decide (email ∈ emails db)) as [Hin|Hn].
    + destruct (getitem (json req) "email") as [e0|v] eqn:Hv.
      { rewrite (update_user_bad_body V B _ _ _ _ HV Hin Hv) in Hrun.
        injection Hrun as _ <-. split_and!; [done..|apply Hsel]. }
      unfold Users.update_user in Hrun. rewrite HV in Hrun.
      apply bind_Raise_inv in Hrun as [Hget|(u & s1 & Hget & Hrun)];
        rewrite session_get_run in Hget; [done|].
      cbn in Hget. rewrite find_user_Some in Hget by done.
      injection Hget as <- <-. rewrite Hv in Hrun.
      apply bind_Raise_inv in Hrun as [Hl|(v' & s2 & Hl & Hrun)]; [done|].
      injection Hl as <- <-.
      by apply staged_commit_raises in Hrun.
    + by rewrite (proj1 (proj2 (missing_row V B _ _ _ HV Hn))) in Hrun.
  - (* delete_user *)
    destruct (V email req) as [r0|] eqn:HV.
    { by rewrite (proj2 (proj2 (rejected_early V B _ _ _ db HV))) in Hrun. }
    destruct (decide (email ∈ emails db)) as [Hin|Hn].
    + unfold Users.delete_user in Hrun. rewrite HV in Hrun.
      apply bind_Raise_inv in Hrun as [Hget|(u & s1 & Hget & Hrun)];
        rewrite session_get_run in Hget; [done|].
      cbn in Hget. rewrite find_user_Some in Hget by done.
      injection Hget as <- <-.
      by apply staged_commit_raises in Hrun.
    + by rewrite (proj2 (proj2 (missing_row V B _ _ _ HV Hn))) in Hrun.
  - (* get_users *)
    done.
Qed.

Lemma failed_requests_commit_nothing_witness :
  let db := with_users empty_db
              [{| email := "bob@example.com" |}; {| email := "ann@example.com" |}] in
  let s' := settled db [SelectUser "ann@example.com";
                        UpdateUser "ann@example.com" "bob@example.com"; Rollback] in
  durable s' = db ∧ view s' = db ∧ pending s' = [] ∧ Commit ∉ log s'.
Proof.
  apply (failed_requests_commit_nothing AppUtils.validate_user_access
           (λ _, inl TypeError) (Users.PutUser "ann@example.com")
           {| user_email := "ann@example.com";
              json := JObj {[ "email" := JStr "bob@example.com" ]} |}
           (with_users empty_db
              [{| email := "bob@example.com" |}; {| email := "ann@example.com" |}])
           IntegrityError).
  vm_compute. reflexivity.
Defined.

(** X5.  The two [GET] routes only read, whatever they answer, and they always
    answer: the database, the transaction and the staging area are as the
    request found them, only lookups were sent, and no exception leaves the
    handler. *)
Theorem get_routes_only_read (V : string → Request → option Response)
    (B : JSON → Exn + string) (route : Users.Route) (req : Request)
    (db : Database) (o : Outcome Response) (s' : Session) :
  route = Users.GetUsers ∨ (∃ email, route = Users.GetUser email) →
  Users.dispatch V B route req (new_session db) = (o, s') →
  untouched db s' ∧ ∃ r, o = Ok r.
Proof.
  intros [->|[email ->]] Hrun; simpl in Hrun.
  - injection Hrun as <- <-. split; [|eauto]. repeat split. by repeat constructor.
  - destruct (V email req) as [r0|] eqn:HV.
    { rewrite (proj1 (rejected_early V B _ _ _ db HV)) in Hrun.
      injection Hrun as <- <-. split; [apply untouched_new|eauto]. }
    destruct (decide (email ∈ emails db)) as [Hin|Hn].
    + rewrite (get_user_found V _ _ _ HV Hin) in Hrun.
      injection Hrun as <- <-. split; [apply untouched_select|eauto].
    + rewrite (proj1 (missing_row V B _ _ _ HV Hn)) in Hrun.
      injection Hrun as <- <-. split; [apply untouched_select|eauto].
Qed.

Lemma get_routes_only_read_witness :
  let db := with_users empty_db [{| email := "ann@example.com" |}] in
  untouched db (settled db [SelectUser "ann@example.com"])
  ∧ ∃ r, Ok {| status := 200; body := JObj {[ "email" := JStr "ann@example.com" ]} |}
         = Ok r.
Proof.
  apply (get_routes_only_read AppUtils.validate_user_access (λ _, inl TypeError)
           (Users.GetUser "ann@example.com")
           {| user_email := "ann@example.com"; json := JNull |}
           (with_users empty_db [{| email := "ann@example.com" |}])).
  - right. by eexists.
  - vm_compute. reflexivity.
Defined.

(* --------------------------------------------------------------------- *)
(** *** The other tables *)

Section Preserves.

Variable P : Database → Database → Prop.
Hypothesis P_users : ∀ d v us, P d v → P d (with_users v us).
Hypothesis P_commit : ∀ d v, P d v → P v v.
Hypothesis P_discard : ∀ d v, P d v → P d d.

Lemma preserves_ret {A} (a : A) : preserves P (mret a : M A).
Proof. by intros s o s' Hs [= <- <-]. Qed.

Lemma preserves_raise {A} (e : Exn) : preserves P (raise e : M A).
Proof. by intros s o s' Hs [= <- <-]. Qed.

Lemma preserves_lift {A} (r : Exn + A) : preserves P (lift r).
Proof. destruct r; [apply preserves_raise|apply preserves_ret]. Qed.

Lemma preserves_bind {A C} (c : M A) (k : A → M C) :
  preserves P c → (∀ a, preserves P (k a)) → preserves P (c ≫= k).
Proof.
  intros Hc Hk s o s' Hs. unfold mbind, M_bind.
  destruct (c s) as [[a|e] s1] eqn:Hrun.
  - apply (Hk a). by apply Hc in Hrun.
  - intros [= <- <-]. by apply Hc in Hrun.
Qed.

Lemma preserves_try {A} (body : M A) (handler : Exn → M A) :
  preserves P body → (∀ e, preserves P (handler e)) →
  preserves P (try_except body handler).
Proof.
  intros Hb Hh s o s' Hs. unfold try_except.
  destruct (body s) as [[a|e] s1] eqn:Hrun.
  - intros [= <- <-]. by apply Hb in Hrun.
  - apply (Hh e). by apply Hb in Hrun.
Qed.

Lemma preserves_send st : preserves P (send st).
Proof. by intros s o s' Hs [= <- <-]. Qed.

Lemma preserves_stage c : preserves P (stage c).
Proof. by intros s o s' Hs [= <- <-]. Qed.

Lemma preserves_get_view : preserves P get_view.
Proof. by intros s o s' Hs [= <- <-]. Qed.

Lemma preserves_take_pending : preserves P take_pending.
Proof. by intros s o s' Hs [= <- <-]. Qed.

Lemma preserves_make_durable : preserves P make_durable.
Proof. intros s o s' Hs [= <- <-]. cbn. eauto. Qed.

Lemma preserves_discard : preserves P discard.
Proof. intros s o s' Hs [= <- <-]. cbn. eauto. Qed.

Lemma preserves_apply_change c : preserves P (apply_change c).
Proof.
  intros s o s' Hs. destruct c as [u|pk [e|new]|pk]; run.
  - case_bool_decide; intros [= <- <-]; cbn; eauto.
  - by intros [= <- <-].
  - case_bool_decide; [by intros [= <- <-]|]. run.
    case_bool_decide; intros [= <- <-]; cbn; eauto.
  - destruct (referenced _ _); intros [= <- <-]; cbn; eauto.
Qed.

Lemma preserves_apply_changes cs : preserves P (apply_changes cs).
Proof.
  induction cs as [|c cs IH]; simpl.
  - apply preserves_ret.
  - apply preserves_bind; [apply preserves_apply_change|done].
Qed.

Lemma preserves_commit : preserves P commit.
Proof.
  apply preserves_bind; [|intros _; apply preserves_bind; intros;
                           auto using preserves_send, preserves_make_durable].
  apply preserves_try.
  - apply preserves_bind; [apply preserves_take_pending|apply preserves_apply_changes].
  - intros e. apply preserves_bind; [|intros; apply preserves_raise].
    apply preserves_bind; [apply preserves_send|intros; apply preserves_discard].
Qed.

Lemma preserves_session_get pk : preserves P (session_get pk).
Proof. by intros s o s' Hs [= <- <-]. Qed.

Lemma preserves_query_first pk : preserves P (query_filter_by_email_first pk).
Proof. by intros s o s' Hs [= <- <-]. Qed.

Lemma preserves_query_all : preserves P query_all.
Proof. by intros s o s' Hs [= <- <-]. Qed.

(** Close a goal [preserves P c] for a straight-line [c]. *)
Ltac preserves_seq :=
  repeat first
    [ solve [auto using preserves_ret, preserves_raise, preserves_lift,
               preserves_stage, preserves_commit, preserves_session_get,
               preserves_query_first, preserves_query_all]
    | apply preserves_bind; [|intros ?] ].

Lemma preserves_dispatch (V : string → Request → option Response)
    (B : JSON → Exn + string) (route : Users.Route) (req : Request) :
  preserves P (Users.dispatch V B route req).
Proof.
  destruct route as [|email|email|email|]; simpl.
  - unfold Users.create_user. apply preserves_bind; [apply preserves_lift|].
    intros [| | |e| |]; try apply preserves_ret.
    destruct (negb _); [apply preserves_ret|].
    apply preserves_bind; [apply preserves_query_first|]. intros [u|]; preserves_seq.
  - unfold Users.get_user. destruct (V email req); [apply preserves_ret|].
    apply preserves_bind; [apply preserves_session_get|]. intros [u|]; preserves_seq.
  - unfold Users.update_user. destruct (V email req); [apply preserves_ret|].
    apply preserves_bind; [apply preserves_session_get|]. intros [u|]; preserves_seq.
  - unfold Users.delete_user. destruct (V email req); [apply preserves_ret|].
    apply preserves_bind; [apply preserves_session_get|]. intros [u|]; preserves_seq.
  - unfold Users.get_users. preserves_seq.
Qed.

End Preserves.

(** X6.  No request touches a table other than [User]: whatever the route, the
    body and the outcome, the rows of [Wordset], [Word], [UserWord] and
    [RecallHistory] are the same in the committed state and in the
    transaction as they were. *)
Theorem requests_touch_only_users (V : string → Request → option Response)
    (B : JSON → Exn + string) (route : Users.Route) (req : Request)
    (db : Database) (o : Outcome Response) (s' : Session) :
  Users.dispatch V B route req (new_session db) = (o, s') →
  other_tables (durable s') = other_tables db
  ∧ other_tables (view s') = other_tables db.
Proof.
  intros Hrun.
  apply (preserves_dispatch
           (λ d v, other_tables d = other_tables db ∧ other_tables v = other_tables db))
    in Hrun; [done| | | |done].
  - by intros d v us [? ?].
  - by intros d v [? ?].
  - by intros d v [? ?].
Qed.

Lemma requests_touch_only_users_witness :
  let db' := with_users TestUtils.fixture_chain
               [{| email := "test@example.com" |}; {| email := "ann@example.com" |}] in
  let s' := settled db' [SelectUser "ann@example.com"; InsertUser "ann@example.com";
                         Commit] in
  other_tables (durable s') = other_tables TestUtils.fixture_chain
  ∧ other_tables (view s') = other_tables TestUtils.fixture_chain.
Proof.
  apply (requests_touch_only_users AppUtils.validate_user_access (λ _, inl TypeError)
           Users.PostUsers
           {| user_email := "ann@example.com";
              json := JObj {[ "email" := JStr "ann@example.com" ]} |}
           TestUtils.fixture_chain
           (Ok {| status := 201;
                  body := JObj {[ "message" := JStr "User created successfully" ]} |})).
  vm_compute. reflexivity.
Defined.

Lemma requests_keep_key_unique_witness :
  wf_db (with_users empty_db
           [{| email := "bob@example.com" |}; {| email := "ann@example.com" |}]).
Proof.
  apply (requests_keep_key_unique AppUtils.validate_user_access (λ _, inl TypeError)
           Users.PostUsers
           {| user_email := "ann@example.com";
              json := JObj {[ "email" := JStr "ann@example.com" ]} |}
           (with_users empty_db [{| email := "bob@example.com" |}])
           (Ok {| status := 201;
                  body := JObj {[ "message" := JStr "User created successfully" ]} |})
           (settled
              (with_users empty_db
                 [{| email := "bob@example.com" |}; {| email := "ann@example.com" |}])
              [SelectUser "ann@example.com"; InsertUser "ann@example.com"; Commit])).
  - unfold wf_db. compute_done.
  - vm_compute. reflexivity.
Defined.

(* ===================================================================== *)
(** ** The SQL script, cut into commands *)
(* ===================================================================== *)

(** *** Splitting *)

Lemma split_nonempty sep s : split sep s ≠ [].
Proof.
  destruct s as [|c s]; simpl; [done|].
  destruct (c =? sep)%N; [done|]. by destruct (split sep s).
Qed.

Lemma split_app sep (a b : list N) :
  split sep (a ++ sep :: b) = split sep a ++ split sep b.
Proof.
  induction a as [|c a IH]; simpl.
  - by rewrite N.eqb_refl.
  - destruct (c =? sep)%N; [by rewrite IH|].
    rewrite IH. destruct (split sep a) eqn:Ha; [|done].
    by apply split_nonempty in Ha.
Qed.

Lemma split_whole sep (s : list N) : sep ∉ s → split sep s = [s].
Proof.
  induction s as [|c s IH]; [done|]. intros [Hne Hn]%not_elem_of_cons. simpl.
  rewrite (proj2 (N.eqb_neq c sep)) by done. by rewrite IH.
Qed.

Lemma split_no_sep sep (s piece : list N) : piece ∈ split sep s → sep ∉ piece.
Proof.
  revert piece. induction s as [|c s IH]; simpl; intros piece.
  - intros ->%list_elem_of_singleton. apply not_elem_of_nil.
  - destruct (c =? sep)%N eqn:Hc.
    + intros [->|Hin]%elem_of_cons; [apply not_elem_of_nil|by apply IH].
    + apply N.eqb_neq in Hc.
      destruct (split sep s) as [|p ps] eqn:Hs.
      { intros ->%list_elem_of_singleton.
        apply not_elem_of_cons. split; [done|apply not_elem_of_nil]. }
      intros [->|Hin]%elem_of_cons.
      * apply not_elem_of_cons. split; [done|]. apply IH. by left.
      * apply IH. by right.
Qed.

(** *** Stripping *)

Lemma lstrip_clean s : starts_clean (lstrip s).
Proof.
  induction s as [|c s IH]; simpl; [done|].
  destruct (isspace c) eqn:Hc; [done|]. by simpl.
Qed.

Lemma lstrip_id s : starts_clean s → lstrip s = s.
Proof. destruct s as [|c s]; simpl; [done|]. by intros ->. Qed.

Lemma lstrip_suffix s : ∃ ws, s = ws ++ lstrip s ∧ blank ws.
Proof.
  induction s as [|c s (ws & IH & Hws)]; simpl.
  - by exists [].
  - destruct (isspace c) eqn:Hc.
    + exists (c :: ws). split; [by rewrite <- app_comm_cons, <- IH|by constructor].
    + by exists [].
Qed.

Lemma lstrip_pad ws s : blank ws → lstrip (ws ++ s) = lstrip s.
Proof. induction 1 as [|c ws Hc _ IH]; simpl; [done|]. by rewrite Hc. Qed.

Lemma lstrip_blank ws : blank ws → lstrip ws = [].
Proof. induction 1 as [|c ws Hc _ IH]; simpl; [done|]. by rewrite Hc. Qed.

Lemma lstrip_app s r : lstrip s ≠ [] → lstrip (s ++ r) = lstrip s ++ r.
Proof.
  induction s as [|c s IH]; simpl; [done|].
  destruct (isspace c); [done|]. by intros _.
Qed.

Lemma rstrip_prefix s : ∃ ws, s = rstrip s ++ ws ∧ blank ws.
Proof.
  unfold rstrip. destruct (lstrip_suffix (reverse s)) as (ws & Heq & Hws).
  exists (reverse ws). split.
  - rewrite <- reverse_app, <- Heq. by rewrite reverse_involutive.
  - by apply Forall_reverse.
Qed.

Lemma rstrip_pad s ws : blank ws → rstrip (s ++ ws) = rstrip s.
Proof.
  intros Hws. unfold rstrip. rewrite reverse_app, lstrip_pad; [done|].
  by apply Forall_reverse.
Qed.

Lemma rstrip_starts_clean s : starts_clean s → starts_clean (rstrip s).
Proof.
  destruct (rstrip_prefix s) as (ws & Heq & _).
  destruct (rstrip s) as [|c t]; [done|]. by rewrite Heq.
Qed.

(** What [strip] returns neither begins nor ends with white space. *)
Lemma strip_clean s : starts_clean (strip s) ∧ starts_clean (reverse (strip s)).
Proof.
  split.
  - apply rstrip_starts_clean, lstrip_clean.
  - unfold strip, rstrip. rewrite reverse_involutive. apply lstrip_clean.
Qed.

Lemma strip_id s : starts_clean s → starts_clean (reverse s) → strip s = s.
Proof.
  intros Hs He. unfold strip, rstrip.
  rewrite (lstrip_id s), (lstrip_id (reverse s)) by done.
  apply reverse_involutive.
Qed.

Lemma strip_idemp s : strip (strip s) = strip s.
Proof. destruct (strip_clean s). by apply strip_id. Qed.

(** [strip] only takes white space away, at the two ends. *)
Lemma strip_infix s : ∃ l r, s = l ++ strip s ++ r ∧ blank l ∧ blank r.
Proof.
  destruct (lstrip_suffix s) as (l & Hl & Hls).
  destruct (rstrip_prefix (lstrip s)) as (r & Hr & Hrs).
  exists l, r. split; [|done]. unfold strip. by rewrite <- Hr.
Qed.

Lemma strip_pad l s r : blank l → blank r → strip (l ++ s ++ r) = strip s.
Proof.
  intros Hl Hr. unfold strip. rewrite lstrip_pad by done.
  destruct (decide (lstrip s = [])) as [Hnil|Hne].
  - destruct (lstrip_suffix s) as (ws & Hs & Hws).
    rewrite Hnil, app_nil_r in Hs. subst ws.
    rewrite Hnil, lstrip_blank; [done|]. by apply Forall_app.
  - rewrite lstrip_app by done. by apply rstrip_pad.
Qed.

Lemma strip_blank ws : blank ws → strip ws = [].
Proof. intros Hws. unfold strip. by rewrite lstrip_blank. Qed.

Lemma blank_no_semicolon ws : blank ws → semicolon ∉ ws.
Proof.
  intros Hws Hin. rewrite Forall_forall in Hws. by apply Hws in Hin.
Qed.

(** *** The commands *)

Lemma stripped_commands_blank ws : blank ws → Provision.stripped_commands ws = [].
Proof.
  intros Hws. unfold Provision.stripped_commands, Provision.sql_commands.
  rewrite split_whole by by apply blank_no_semicolon.
  simpl. rewrite strip_blank by done.
  by rewrite filter_cons_False by (intros H; by apply H).
Qed.

Lemma stripped_commands_cut (a b : list N) :
  Provision.stripped_commands (a ++ semicolon :: b)
    = Provision.stripped_commands a ++ Provision.stripped_commands b.
Proof.
  unfold Provision.stripped_commands, Provision.sql_commands.
  by rewrite split_app, fmap_app, filter_app.
Qed.

Lemma stripped_commands_one l s r :
  blank l → blank r → semicolon ∉ s → strip s = s → s ≠ [] →
  Provision.stripped_commands (l ++ s ++ r) = [s].
Proof.
  intros Hl Hr Hsemi Hs Hne. unfold Provision.stripped_commands, Provision.sql_commands.
  rewrite split_whole.
  - simpl. rewrite strip_pad, Hs by done. by rewrite filter_cons_True.
  - rewrite !elem_of_app.
    intros [?|[?|?]];
      [by apply (blank_no_semicolon l)|done|by apply (blank_no_semicolon r)].
Qed.

(** X9.  Every semicolon of the script ends a command, wherever it stands (also
    inside a quoted string or a procedure body): the commands of a script
    with a semicolon in it are those of the text before the semicolon
    followed by those of the text after it. *)
Theorem stripped_commands_app (a b : list N) :
  Provision.stripped_commands (a ++ semicolon :: b)
    = Provision.stripped_commands a ++ Provision.stripped_commands b.
Proof.
  unfold Provision.stripped_commands, Provision.sql_commands.
  rewrite split_app, fmap_app. apply filter_app.
Qed.

(** A statement with a semicolon inside a string literal is sent as two
    broken commands. *)
Example semicolon_in_literal :
  Provision.stripped_commands (lit "INSERT INTO t VALUES ('a;b'); SELECT 1;")
    = [lit "INSERT INTO t VALUES ('a"; lit "b')"; lit "SELECT 1"].
Proof. vm_compute. reflexivity. Qed.

(** X8.  A command passed to the cursor is never empty, holds no semicolon, and
    neither begins nor ends with white space (stripping it again changes
    nothing). *)
Theorem stripped_commands_clean (sql_script command : list N) :
  command ∈ Provision.stripped_commands sql_script →
  command ≠ [] ∧ (semicolon ∉ command) ∧ strip command = command
  ∧ starts_clean command ∧ starts_clean (reverse command).
Proof.
  unfold Provision.stripped_commands, Provision.sql_commands.
  intros [Hne (piece & -> & Hin)%list_elem_of_fmap]%list_elem_of_filter.
  split; [done|]. split; [|split; [apply strip_idemp|apply strip_clean]].
  apply split_no_sep in Hin. intros Hsemi. apply Hin.
  destruct (strip_infix piece) as (l & r & Heq & _). rewrite Heq.
  rewrite !elem_of_app. auto.
Qed.

Lemma stripped_commands_clean_witness :
  lit "SELECT 1" ≠ [] ∧ (semicolon ∉ lit "SELECT 1")
  ∧ strip (lit "SELECT 1") = lit "SELECT 1"
  ∧ starts_clean (lit "SELECT 1") ∧ starts_clean (reverse (lit "SELECT 1")).
Proof.
  apply (stripped_commands_clean (lit "  SELECT 1 ;; USE x")).
  vm_compute. left.
Defined.

(** X10.  A script written as statements that hold no semicolon, each followed by
    a semicolon, with any white space around them, is passed to the cursor
    statement by statement, in order and without the white space. *)
Theorem stripped_commands_round_trip (layout : list (list N * list N * list N))
    (tail : list N) :
  Forall (λ '(l, s, r),
            blank l ∧ blank r ∧ (semicolon ∉ s) ∧ strip s = s ∧ s ≠ []) layout →
  blank tail →
  Provision.stripped_commands (Provision.script_of layout tail)
    = (λ '(l, s, r), s) <$> layout.
Proof.
  intros Hlay Htail.
  induction Hlay as [|[[l s] r] layout (Hl & Hr & Hsemi & Hs & Hne) _ IH]; simpl.
  - by apply stripped_commands_blank.
  - rewrite !app_assoc, <- (app_assoc l s r), stripped_commands_cut, IH.
    by rewrite stripped_commands_one.
Qed.

Lemma stripped_commands_round_trip_witness :
  Provision.stripped_commands
    (lit "CREATE TABLE a (x INT)" ++ lit " " ++ semicolon
       :: lit (String (Ascii.ascii_of_nat 10) "  ") ++ lit "DROP TABLE b" ++ []
       ++ semicolon :: lit (String (Ascii.ascii_of_nat 10) ""))
    = [lit "CREATE TABLE a (x INT)"; lit "DROP TABLE b"].
Proof.
  apply (stripped_commands_round_trip
           [([], lit "CREATE TABLE a (x INT)", lit " ");
            (lit (String (Ascii.ascii_of_nat 10) "  "), lit "DROP TABLE b", [])]
           (lit (String (Ascii.ascii_of_nat 10) ""))).
  - repeat constructor; try (vm_compute; congruence); compute_done.
  - repeat constructor.
Defined.

(* ===================================================================== *)
(** ** Running the script, and dropping the database *)
(* ===================================================================== *)

#[global] Arguments lit : simpl never.
#[global] Arguments Provision.create_database : simpl never.
#[global] Arguments Provision.use_database : simpl never.
#[global] Arguments Provision.drop_database : simpl never.
#[global] Arguments Provision.stripped_commands : simpl never.
#[global] Arguments Provision.sql_commands : simpl never.

Section ConnectionFacts.

Variable Server : Type.
Variable execute : list N → Server → option Server.
Variable commit : Server → option Server.

#[local] Abbreviation Conn := (Provision.Conn Server).
#[local] Abbreviation cursor_execute := (Provision.cursor_execute Server execute).
#[local] Abbreviation execute_commands := (Provision.execute_commands Server execute).
#[local] Abbreviation stays_open := (Provision.stays_open Server).

(** The loop sends the stripped, non-empty pieces in order, and stops at
    the first one the server refuses. *)
Lemma execute_commands_trace (pieces : list (list N)) (c c' : Conn)
    (o : Provision.Error + ()) :
  execute_commands pieces c = (o, c') →
  (o = inr ()
   ∧ Provision.trace c'
     = Provision.trace c
         ++ (Provision.Executed <$> filter (λ command, command ≠ []) (strip <$> pieces)))
  ∨ (o = inl Provision.MySQLError
     ∧ ∃ pre sql post,
         filter (λ command, command ≠ []) (strip <$> pieces) = pre ++ sql :: post
       ∧ Provision.trace c'
         = Provision.trace c ++ (Provision.Executed <$> pre) ++ [Provision.Refused sql]).
Proof.
  revert c. induction pieces as [|piece pieces IH]; intros c;
    cbn [Provision.execute_commands]; rewrite ?fmap_cons.
  - intros [= <- <-]. left. by rewrite app_nil_r.
  - case_bool_decide as Hpiece.
    + rewrite filter_cons_True by done.
      unfold Provision.seq, Provision.cursor_execute at 1.
      destruct (execute (strip piece) (Provision.server c)) as [srv|].
      * intros [(-> & Htr)|(-> & pre & sql & post & Hcmd & Htr)]%IH.
        -- left. split; [done|]. rewrite Htr. cbn. by rewrite <- app_assoc.
        -- right. split; [done|]. exists (strip piece :: pre), sql, post.
           split; [by rewrite Hcmd|]. rewrite Htr. cbn. by rewrite <- !app_assoc.
      * intros [= <- <-]. right. split; [done|].
        by exists [], (strip piece), (filter (λ command, command ≠ []) (strip <$> pieces)).
    + rewrite filter_cons_False; [apply IH|by intros H].
Qed.

(** X11.  [run_sql_script] sends [CREATE DATABASE], [USE] and then the commands
    of the script, in that order, up to the first statement the server
    refuses: nothing is sent after a refusal, which is logged and raised.
    A script file that cannot be read is met only once [CREATE DATABASE]
    and [USE] went through, and its error is raised without being logged.
    The connection is closed at the end in every case. *)
Theorem run_sql_script_trace (file : string + list N) (db_name : list N)
    (srv : Server) (o : Provision.Error + ()) (c' : Conn) :
  Provision.run_sql_script Server execute file db_name (Provision.connect srv)
    = (o, c') →
  let stmts := Provision.statements file db_name in
  (o = match file with
       | inr _ => inr ()
       | inl detail => inl (Provision.OtherError detail)
       end
   ∧ Provision.trace c' = (Provision.Executed <$> stmts) ++ [Provision.Closed])
  ∨ (o = inl Provision.MySQLError
     ∧ ∃ pre sql post, stmts = pre ++ sql :: post
       ∧ Provision.trace c'
         = (Provision.Executed <$> pre)
             ++ [Provision.Refused sql; Provision.ErrorLogged; Provision.Closed]).
Proof.
  unfold Provision.run_sql_script, Provision.guarded, Provision.seq,
    Provision.statements, Provision.stripped_commands.
  unfold Provision.cursor_execute at 1. cbn.
  destruct (execute (Provision.create_database db_name) srv) as [srv1|]; cbn.
  2:{ intros [= <- <-]. right. split; [done|]. by eexists [], _, _. }
  unfold Provision.cursor_execute at 1. cbn.
  destruct (execute (Provision.use_database db_name) srv1) as [srv2|]; cbn.
  2:{ intros [= <- <-]. right. split; [done|]. by eexists [_], _, _. }
  destruct file as [detail|sql_script]; cbn.
  { intros [= <- <-]. by left. }
  destruct (execute_commands _ _) as [[e|[]] c1] eqn:Hrun;
    apply execute_commands_trace in Hrun
      as [([=] & Htr)|([=] & pre & sql & post & Hcmd & Htr)];
    subst; intros [= <- <-]; cbn in *.
  - right. split; [done|].
    exists (Provision.create_database db_name :: Provision.use_database db_name :: pre),
      sql, post.
    split; [by rewrite Hcmd|]. rewrite Htr. cbn. by rewrite <- ?app_assoc.
  - left. split; [done|]. rewrite Htr. cbn. by rewrite <- ?app_assoc.
Qed.

Lemma stays_open_emit (ev : Provision.Event) (c : Conn) :
  ev ≠ Provision.Closed → Provision.Closed ∉ Provision.trace c →
  Provision.Closed ∉ Provision.trace (Provision.emit Server ev c).
Proof.
  intros Hev Hc [?|Hin%list_elem_of_singleton]%elem_of_app; [done|].
  by apply Hev.
Qed.

Lemma stays_open_execute sql : stays_open (cursor_execute sql).
Proof.
  intros c o c' Hc. unfold Provision.cursor_execute.
  destruct (execute sql (Provision.server c));
    intros [= <- <-]; by apply stays_open_emit.
Qed.

Lemma stays_open_commit : stays_open (Provision.connection_commit Server commit).
Proof.
  intros c o c' Hc. unfold Provision.connection_commit.
  destruct (commit (Provision.server c));
    intros [= <- <-]; by apply stays_open_emit.
Qed.

Lemma stays_open_seq {A B} (m : Provision.C Server A) (k : A → Provision.C Server B) :
  stays_open m → (∀ a, stays_open (k a)) → stays_open (Provision.seq Server m k).
Proof.
  intros Hm Hk c o c' Hc. unfold Provision.seq.
  destruct (m c) as [[e|a] c1] eqn:Hrun.
  - intros [= <- <-]. by apply Hm in Hrun.
  - apply (Hk a). by apply Hm in Hrun.
Qed.

Lemma stays_open_commands pieces : stays_open (execute_commands pieces).
Proof.
  induction pieces as [|piece pieces IH]; simpl.
  - by intros c o c' Hc [= <- <-].
  - case_bool_decide; [|done].
    apply stays_open_seq; [apply stays_open_execute|done].
Qed.

Lemma guarded_closes {A} (body : Provision.C Server A) (c c' : Conn)
    (o : Provision.Error + A) :
  stays_open body → Provision.Closed ∉ Provision.trace c →
  Provision.guarded Server body c = (o, c') → Provision.closed_once c'.
Proof.
  intros Hbody Hc. unfold Provision.guarded.
  destruct (body c) as [[[|detail]|a] c1] eqn:Hrun;
    apply (Hbody _ _ _ Hc) in Hrun; intros [= <- <-];
    eexists; (split; [reflexivity|]); [|done..].
  by apply (stays_open_emit Provision.ErrorLogged).
Qed.

(** X12.  Both [run_sql_script] and [teardown_test_db] close the connection they
    opened, once and as the last thing they do, whether they return or
    raise. *)
Theorem connection_closed_once (file : string + list N) (name : list N)
    (srv : Server) (o : Provision.Error + ()) (c' : Conn) :
  Provision.run_sql_script Server execute file name (Provision.connect srv) = (o, c')
  ∨ Provision.teardown_test_db Server execute commit name (Provision.connect srv)
    = (o, c') →
  Provision.closed_once c'.
Proof.
  intros [Hrun|Hrun]; eapply guarded_closes; try exact Hrun;
    try apply not_elem_of_nil.
  - apply stays_open_seq; [apply stays_open_execute|intros _].
    apply stays_open_seq; [apply stays_open_execute|intros _].
    apply stays_open_seq; [|intros ?; apply stays_open_commands].
    intros c o0 c0 Hc. unfold Provision.read_script.
    by destruct file; intros [= <- <-].
  - apply stays_open_seq; [apply stays_open_execute|intros _].
    apply stays_open_commit.
Qed.

End ConnectionFacts.

(** A server that refuses the one statement [BAD] and accepts the rest. *)
Lemma run_sql_script_trace_witness :
  let execute := λ (sql : list N) (_ : ()),
                   if bool_decide (sql = lit "BAD") then None else Some () in
  let file : string + list N := inr (lit "A; BAD; C") in
  let run := Provision.run_sql_script () execute file (lit "t") (Provision.connect ()) in
  let stmts := Provision.statements file (lit "t") in
  (fst run = inr ()
   ∧ Provision.trace (snd run) = (Provision.Executed <$> stmts) ++ [Provision.Closed])
  ∨ (fst run = inl Provision.MySQLError
     ∧ ∃ pre sql post, stmts = pre ++ sql :: post
       ∧ Provision.trace (snd run)
         = (Provision.Executed <$> pre)
             ++ [Provision.Refused sql; Provision.ErrorLogged; Provision.Closed]).
Proof.
  intros execute file run stmts.
  apply (run_sql_script_trace () execute file (lit "t") () (fst run) (snd run)).
  vm_compute. reflexivity.
Defined.

Lemma connection_closed_once_witness :
  Provision.closed_once
    {| Provision.server := ();
       Provision.trace :=
         [Provision.Refused (Provision.drop_database (lit "test_db_7"));
          Provision.ErrorLogged; Provision.Closed] |}.
Proof.
  apply (connection_closed_once () (λ _ _, None) (λ _, Some ()) (inl "")
           (lit "test_db_7") () (inl Provision.MySQLError)).
  right. vm_compute. reflexivity.
Defined.

(* ===================================================================== *)
(** ** The name of the test database *)
(* ===================================================================== *)

Lemma lit_inj (s t : string) : lit s = lit t → s = t.
Proof.
  unfold lit. revert t. induction s as [|a s IH]; intros [|b t]; simpl; try done.
  intros [= Hab Hst]. f_equal; [|by apply IH].
  rewrite <- (Ascii.ascii_N_embedding a), <- (Ascii.ascii_N_embedding b).
  by rewrite Hab.
Qed.

(** X13.  Two runs that start in different seconds get different database names
    (and two runs in the same second the same name). *)
Theorem generate_temp_db_name_distinct (t1 t2 : Z) :
  t1 ≠ t2 → Provision.generate_temp_db_name t1 ≠ Provision.generate_temp_db_name t2.
Proof.
  intros Hne Heq. apply Hne. unfold Provision.generate_temp_db_name in Heq.
  apply lit_inj in Heq. apply (inj (String.app "test_db_")) in Heq.
  by apply (inj pretty) in Heq.
Qed.

Lemma generate_temp_db_name_distinct_witness :
  Provision.generate_temp_db_name 1730714400 ≠ Provision.generate_temp_db_name 1730714401.
Proof. apply generate_temp_db_name_distinct. discriminate. Defined.

Example generate_temp_db_name_example :
  Provision.generate_temp_db_name 1730714400 = lit "test_db_1730714400".
Proof. vm_compute. reflexivity. Qed.

(** The statements sent for a database of that name, letter by letter. *)
Example provisioning_statements :
  let db_name := Provision.generate_temp_db_name 1730714400 in
  Provision.create_database db_name = lit "CREATE DATABASE IF NOT EXISTS test_db_1730714400;"
  ∧ Provision.use_database db_name = lit "USE test_db_1730714400;"
  ∧ Provision.drop_database db_name = lit "DROP DATABASE IF EXISTS test_db_1730714400;".
Proof. vm_compute. done. Qed.

(* ===================================================================== *)
(** ** The fixture factories *)
(* ===================================================================== *)

(** *** First matches *)

Lemma find_app {A} (P : A → bool) (l1 l2 : list A) :
  List.find P (l1 ++ l2)
    = match List.find P l1 with Some x => Some x | None => List.find P l2 end.
Proof. induction l1 as [|x l1 IH]; simpl; [done|]. by destruct (P x). Qed.

Lemma find_absent {A} (P : A → bool) (l : list A) :
  (∀ x, x ∈ l → P x = false) → List.find P l = None.
Proof.
  induction l as [|x l IH]; simpl; [done|]. intros H.
  rewrite (H x) by left. apply IH. intros y Hy. apply H. by right.
Qed.

Lemma find_present {A} (P : A → bool) (l : list A) x :
  x ∈ l → P x = true → ∃ y, List.find P l = Some y ∧ y ∈ l ∧ P y = true.
Proof.
  induction l as [|z l IH]; simpl.
  - by intros ?%elem_of_nil.
  - intros Hin Hx. destruct (P z) eqn:Hz.
    + exists z. split; [done|]. split; [left|done].
    + apply elem_of_cons in Hin as [->|Hin]; [congruence|].
      destruct (IH Hin Hx) as (y & ? & ? & ?). exists y. split; [done|].
      split; [by right|done].
Qed.

Lemma find_by_key {A K} `{EqDecision K} (key : A → K) (l : list A) x :
  NoDup (key <$> l) → x ∈ l →
  List.find (λ y, bool_decide (key y = key x)) l = Some x.
Proof.
  induction l as [|z l IH]; simpl.
  - by intros _ ?%elem_of_nil.
  - intros [Hz Hnd]%NoDup_cons [->|Hin]%elem_of_cons.
    + by rewrite bool_decide_eq_true_2.
    + rewrite bool_decide_eq_false_2; [by apply IH|].
      intros Heq. apply Hz. rewrite Heq. by apply list_elem_of_fmap_2.
Qed.

Section FixtureFacts.

Variable next_wordset_id : Database → Z.
Variable next_word_id : Database → Z.

#[local] Abbreviation create_test_word :=
  (Fixtures.create_test_word next_wordset_id next_word_id).
#[local] Abbreviation create_test_userword :=
  (Fixtures.create_test_userword next_wordset_id next_word_id).

(** X14.  The user row is inserted first: with a user of that email already in
    the table, both factories raise [IntegrityError] before they create
    anything. *)
Theorem factories_refuse_existing_user (now user_email word_description : string)
    (word_name : option string) (db : Database) :
  user_email ∈ emails db →
  create_test_word now user_email word_description word_name db
    = (inl (Fixtures.Raised IntegrityError), db)
  ∧ create_test_userword now user_email word_description word_name db
    = (inl (Fixtures.Raised IntegrityError), db).
Proof.
  intros Hin.
  assert (Hword : create_test_word now user_email word_description word_name db
                  = (inl (Fixtures.Raised IntegrityError), db)).
  { unfold Fixtures.create_test_word, Fixtures.bind at 1, Fixtures.add_user.
    cbn. by rewrite bool_decide_eq_true_2. }
  split; [done|].
  unfold Fixtures.create_test_userword, Fixtures.bind at 1. by rewrite Hword.
Qed.


Lemma find_default {A} (P : A → bool) (l : list A) (x d : A) :
  x ∈ l → P x = true →
  List.find P l = Some (default d (List.find P l))
  ∧ default d (List.find P l) ∈ l ∧ P (default d (List.find P l)) = true.
Proof.
  intros Hin Hx. destruct (find_present P l x Hin Hx) as (y & -> & ? & ?). done.
Qed.

(** What [create_test_word] does, step by step: it fails with
    [IntegrityError] at the first insert whose key is taken, and otherwise
    returns the new user, the first wordset with the description, fetched
    again by its id, and the new word. *)
Lemma create_test_word_steps (now user_email word_description : string)
    (word_name : option string) (db : Database) :
  let user := {| email := user_email |} in
  let db1 := with_users db (users db ++ [user]) in
  let new_wordset :=
    {| wordset_id := next_wordset_id db1; description := word_description |} in
  let db2 :=
    {| users := users db1; wordsets := wordsets db1 ++ [new_wordset];
       words := words db1; userwords := userwords db1;
       recall_history := recall_history db1 |} in
  let wordset :=
    default new_wordset
      (List.find (λ ws, bool_decide (description ws = word_description))
         (wordsets db2)) in
  let word :=
    {| word_id := next_word_id db2; word := default ("Test Word " +:+ now) word_name;
       word_wordset_id := wordset_id wordset;
       def1 := "Definition 1"; def2 := "Definition 2" |} in
  let db3 :=
    {| users := users db2; wordsets := wordsets db2; words := words db2 ++ [word];
       userwords := userwords db2; recall_history := recall_history db2 |} in
  let fetched :=
    default wordset
      (List.find (λ ws, bool_decide (wordset_id ws = wordset_id wordset))
         (wordsets db3)) in
  create_test_word now user_email word_description word_name db
    = if bool_decide (user_email ∈ emails db)
      then (inl (Fixtures.Raised IntegrityError), db)
      else if bool_decide (next_wordset_id db1 ∈ Fixtures.wordset_ids db1)
      then (inl (Fixtures.Raised IntegrityError), db1)
      else if bool_decide (next_word_id db2 ∈ Fixtures.word_ids db2)
      then (inl (Fixtures.Raised IntegrityError), db2)
      else (inr (user, fetched, word), db3).
Proof.
  intros user db1 new_wordset db2 wordset word db3 fetched.
  unfold Fixtures.create_test_word.
  unfold Fixtures.bind at 1, Fixtures.add_user. cbn [email].
  case_bool_decide as Huser; [done|]. fold user db1.
  unfold Fixtures.bind at 1, Fixtures.add_wordset. cbn [wordset_id]. fold new_wordset.
  case_bool_decide as Hws; [done|]. fold db2.
  unfold Fixtures.bind at 1, Fixtures.first_wordset_by_description.
  (* the new wordset has the description: the query finds a row *)
  destruct (find_default (λ ws, bool_decide (description ws = word_description))
              (wordsets db2) new_wordset new_wordset) as (Hfound & Hin & Hdesc).
  { apply elem_of_app. right. by left. }
  { by apply bool_decide_eq_true_2. }
  fold wordset in Hfound, Hin, Hdesc. rewrite Hfound.
  unfold Fixtures.bind at 1, Fixtures.require, Fixtures.ret.
  unfold Fixtures.bind at 1, Fixtures.add_word. cbn [word_id]. fold word.
  destruct (bool_decide (next_word_id db2 ∈ Fixtures.word_ids db2)) eqn:Hw; [done|].
  apply bool_decide_eq_false in Hw.
  rewrite bool_decide_eq_true_2 by (by apply list_elem_of_fmap_2).
  fold db3.
  (* the three rows are fetched again *)
  unfold Fixtures.bind at 1, Fixtures.first_user. cbn [email].
  rewrite (find_user_Some db3 (email user)).
  2:{ unfold emails. apply list_elem_of_fmap_2.
      unfold db3, db2, db1, with_users. cbn. apply elem_of_app. right. by left. }
  unfold Fixtures.bind at 1, Fixtures.require, Fixtures.ret.
  unfold Fixtures.bind at 1, Fixtures.first_wordset.
  destruct (find_default (λ ws, bool_decide (wordset_id ws = wordset_id wordset))
              (wordsets db3) wordset wordset) as (Hfetch & _ & _).
  { done. }
  { by apply bool_decide_eq_true_2. }
  fold fetched in Hfetch. rewrite Hfetch.
  unfold Fixtures.bind at 1, Fixtures.require, Fixtures.ret.
  unfold Fixtures.bind at 1, Fixtures.first_word.
  change (words db3) with (words db2 ++ [word]). rewrite find_app, find_absent.
  2:{ intros w Hin_w. apply bool_decide_eq_false_2. intros Heq. apply Hw.
      change (next_word_id db2) with (word_id word).
      unfold Fixtures.word_ids. rewrite <- Heq. by apply list_elem_of_fmap_2. }
  cbn [List.find]. by rewrite bool_decide_eq_true_2.
Qed.


(** Whenever [create_test_word] returns, the three rows it returns are in
    the database and linked. *)
Lemma create_test_word_returns (now user_email word_description : string)
    (word_name : option string) (db db' : Database)
    (user : User) (wordset : Wordset) (word : Word) :
  create_test_word now user_email word_description word_name db
    = (inr (user, wordset, word), db') →
  user = {| email := user_email |}
  ∧ (user_email ∉ emails db)
  ∧ users db' = users db ++ [user]
  ∧ wordset ∈ wordsets db'
  ∧ word_wordset_id word = wordset_id wordset
  ∧ Models.word word = default ("Test Word " +:+ now) word_name
  ∧ words db' = words db ++ [word]
  ∧ (word_id word ∉ Fixtures.word_ids db)
  ∧ userwords db' = userwords db
  ∧ recall_history db' = recall_history db.
Proof.
  rewrite create_test_word_steps. cbv zeta.
  set (user0 := {| email := user_email |}).
  set (db1 := with_users db (users db ++ [user0])).
  set (new_wordset := {| wordset_id := next_wordset_id db1;
                         description := word_description |}).
  set (db2 := {| users := users db1; wordsets := wordsets db1 ++ [new_wordset];
                 words := words db1; userwords := userwords db1;
                 recall_history := recall_history db1 |}).
  set (by_description := default new_wordset
         (List.find (λ ws, bool_decide (description ws = word_description))
            (wordsets db2))).
  set (by_id := default by_description (List.find _ _)).
  case_bool_decide as Huser; [done|].
  destruct (bool_decide (next_wordset_id _ ∈ _)) eqn:Hws; [done|].
  destruct (bool_decide (next_word_id _ ∈ _)) eqn:Hw; [done|].
  apply bool_decide_eq_false in Hw.
  intros [= <- <- <- <-].
  destruct (find_default (λ ws, bool_decide (description ws = word_description))
              (wordsets db2) new_wordset new_wordset) as (_ & Hin & _).
  { apply elem_of_app. right. by left. }
  { by apply bool_decide_eq_true_2. }
  fold by_description in Hin.
  destruct (find_default
              (λ ws, bool_decide (wordset_id ws = wordset_id by_description))
              (wordsets db2) by_description by_description) as (_ & Hin' & Hid).
  { done. }
  { by apply bool_decide_eq_true_2. }
  apply bool_decide_eq_true in Hid.
  split_and!; try done.
Qed.

(** What [create_test_userword] adds to [create_test_word]: the insert of
    the [UserWord] row, refused only if its key is taken, and the row
    fetched again. *)
Lemma create_test_userword_steps (now user_email word_description : string)
    (word_name : option string) (db : Database) :
  create_test_userword now user_email word_description word_name db
    = match create_test_word now user_email word_description word_name db with
      | (inl f, db') => (inl f, db')
      | (inr (user, wordset, word), db') =>
          let userword :=
            {| user_id := email user; userword_word_id := word_id word;
               is_included := true; recall_state := 1 |} in
          if bool_decide ((email user, word_id word) ∈ Fixtures.userword_keys db')
          then (inl (Fixtures.Raised IntegrityError), db')
          else (inr (user, wordset, word, Some userword),
                {| users := users db'; wordsets := wordsets db'; words := words db';
                   userwords := userwords db' ++ [userword];
                   recall_history := recall_history db' |})
      end.
Proof.
  unfold Fixtures.create_test_userword, Fixtures.bind at 1.
  destruct (create_test_word _ _ _ _ _) as [[f|[[user wordset] word]] db'] eqn:Hrun;
    [done|].
  apply create_test_word_returns in Hrun
    as (-> & _ & Husers & _ & _ & _ & Hwords & _).
  unfold Fixtures.bind at 1, Fixtures.add_userword.
  cbn [user_id userword_word_id email].
  case_bool_decide as Hkey; [done|].
  rewrite !bool_decide_eq_true_2.
  2:{ unfold Fixtures.word_ids. rewrite Hwords, fmap_app. apply elem_of_app.
      right. by left. }
  2:{ unfold emails. rewrite Husers, fmap_app. apply elem_of_app. right. by left. }
  cbn [andb].
  unfold Fixtures.bind at 1, Fixtures.first_userword. cbn [userwords].
  rewrite find_app, find_absent.
  2:{ intros uw Hin. apply andb_false_iff.
      destruct (decide (user_id uw = user_email)) as [Hu|Hu];
        [|left; by apply bool_decide_eq_false_2].
      right. apply bool_decide_eq_false_2. intros Hw. apply Hkey.
      unfold Fixtures.userword_keys. rewrite <- Hu, <- Hw.
      by apply (list_elem_of_fmap_2 (λ uw, (user_id uw, userword_word_id uw))). }
  cbn. by rewrite !bool_decide_eq_true_2.
Qed.


Lemma create_test_userword_returns (now user_email word_description : string)
    (word_name : option string) (db db' : Database)
    (user : User) (wordset : Wordset) (word : Word) (found : option UserWord) :
  create_test_userword now user_email word_description word_name db
    = (inr (user, wordset, word, found), db') →
  let userword := {| user_id := user_email; userword_word_id := word_id word;
                     is_included := true; recall_state := 1 |} in
  user = {| email := user_email |} ∧ found = Some userword
  ∧ word_wordset_id word = wordset_id wordset
  ∧ wordset ∈ wordsets db'
  ∧ users db' = users db ++ [user]
  ∧ words db' = words db ++ [word]
  ∧ userwords db' = userwords db ++ [userword]
  ∧ recall_history db' = recall_history db.
Proof.
  rewrite create_test_userword_steps.
  destruct (create_test_word _ _ _ _ _) as [[f|[[user0 wordset0] word0]] db0] eqn:Hrun;
    [done|].
  apply create_test_word_returns in Hrun
    as (-> & _ & Husers & Hws & Hlink & _ & Hwords & _ & Huw & Hrh).
  cbv zeta. cbn [email]. case_bool_decide; [done|].
  intros [= <- <- <- <- <-]. cbn. by rewrite Huw.
Qed.

(** X15.  Whenever [create_test_userword] returns, the rows it returns are in
    the database and linked into a chain: the [UserWord] points to the
    user and the word, the word to the wordset; the last query found the
    new [UserWord]; and one row was appended to [User], [Word] and
    [UserWord] while [RecallHistory] was left alone. *)
Theorem create_test_userword_links (now user_email word_description : string)
    (word_name : option string) (db db' : Database)
    (user : User) (wordset : Wordset) (word : Word) (found : option UserWord) :
  create_test_userword now user_email word_description word_name db
    = (inr (user, wordset, word, found), db') →
  let userword := {| user_id := user_email; userword_word_id := word_id word;
                     is_included := true; recall_state := 1 |} in
  user = {| email := user_email |} ∧ found = Some userword
  ∧ word_wordset_id word = wordset_id wordset
  ∧ wordset ∈ wordsets db'
  ∧ users db' = users db ++ [user]
  ∧ words db' = words db ++ [word]
  ∧ userwords db' = userwords db ++ [userword]
  ∧ recall_history db' = recall_history db.
Proof.
  rewrite create_test_userword_steps.
  destruct (create_test_word _ _ _ _ _) as [[f|[[user0 wordset0] word0]] db0] eqn:Hrun;
    [done|].
  apply create_test_word_returns in Hrun
    as (-> & _ & Husers & Hws & Hlink & _ & Hwords & _ & Huw & Hrh).
  cbv zeta. cbn [email]. case_bool_decide; [done|].
  intros [= <- <- <- <- <-]. cbn. by rewrite Huw.
Qed.

(** X16.  A factory fails only because a key is taken: the error is an
    [IntegrityError], never the [ValueError] of one of the checks.  It is
    not undone: unless the user was already there and nothing was done,
    the user row it inserted first stays in the database. *)
Theorem factories_fail_on_keys_only (now user_email word_description : string)
    (word_name : option string) (db db' : Database) (f : Fixtures.Failure) :
  create_test_word now user_email word_description word_name db = (inl f, db')
  ∨ create_test_userword now user_email word_description word_name db = (inl f, db') →
  f = Fixtures.Raised IntegrityError
  ∧ (user_email ∈ emails db ∧ db' = db
     ∨ (user_email ∉ emails db) ∧ users db' = users db ++ [{| email := user_email |}]).
Proof.
  assert (Hword : create_test_word now user_email word_description word_name db
                    = (inl f, db') →
                  f = Fixtures.Raised IntegrityError
                  ∧ (user_email ∈ emails db ∧ db' = db
                     ∨ (user_email ∉ emails db)
                       ∧ users db' = users db ++ [{| email := user_email |}])).
  { rewrite create_test_word_steps. cbv zeta.
    case_bool_decide as Huser; [intros [= <- <-]; auto|].
    destruct (bool_decide (next_wordset_id _ ∈ _)); [intros [= <- <-]; auto|].
    destruct (bool_decide (next_word_id _ ∈ _)); [intros [= <- <-]; auto|done]. }
  intros [Hrun|Hrun]; [by apply Hword|].
  rewrite create_test_userword_steps in Hrun.
  destruct (create_test_word _ _ _ _ _) as [[f0|[[user0 wordset0] word0]] db0] eqn:Hw.
  - injection Hrun as -> ->. by apply Hword.
  - apply create_test_word_returns in Hw as (-> & Hn & Husers & _).
    cbv zeta in Hrun. case_bool_decide; [|done].
    injection Hrun as <- <-. auto.
Qed.

(** X17.  With the email not yet in [User], keys generated for the new wordset
    and the new word that are not taken, and no [UserWord] row left over
    for that email, [create_test_userword] returns. *)
Theorem create_test_userword_succeeds (now user_email word_description : string)
    (word_name : option string) (db : Database) :
  let db1 := with_users db (users db ++ [{| email := user_email |}]) in
  let db2 :=
    {| users := users db1;
       wordsets := wordsets db1
                     ++ [{| wordset_id := next_wordset_id db1;
                            description := word_description |}];
       words := words db1; userwords := userwords db1;
       recall_history := recall_history db1 |} in
  user_email ∉ emails db →
  next_wordset_id db1 ∉ Fixtures.wordset_ids db →
  next_word_id db2 ∉ Fixtures.word_ids db →
  (∀ uw, uw ∈ userwords db → user_id uw ≠ user_email) →
  ∃ rows db',
    create_test_userword now user_email word_description word_name db
      = (inr rows, db').
Proof.
  intros db1 db2 Huser Hws Hw Hfree.
  rewrite create_test_userword_steps, create_test_word_steps. cbv zeta.
  fold db1. fold db2.
  rewrite (bool_decide_eq_false_2 (user_email ∈ emails db)) by done.
  rewrite (bool_decide_eq_false_2 (next_wordset_id db1 ∈ _)) by done.
  rewrite (bool_decide_eq_false_2 (next_word_id db2 ∈ _)) by done.
  cbn [email word_id]. rewrite bool_decide_eq_false_2; [by eexists _, _|].
  unfold Fixtures.userword_keys. cbn.
  intros (uw & [= Hu _] & Hin)%list_elem_of_fmap. by apply (Hfree uw).
Qed.

End FixtureFacts.

Lemma query_delete_refused db t k :
  k ∈ table_keys db t → k ∈ held_refs db →
  query_delete t (new_session db)
    = (Raise IntegrityError, settled db [DeleteAll t]).
Proof.
  intros Hkey Hheld. rewrite query_delete_run. cbn.
  assert (Hex : existsb (referenced db) (table_keys db t) = true).
  { apply existsb_exists. exists k. split; [by apply list_elem_of_In|].
    unfold referenced. by apply bool_decide_eq_true_2. }
  by rewrite Hex.
Qed.

Section FixtureCleanup.

Variable next_wordset_id : Database → Z.
Variable next_word_id : Database → Z.

(** X18.  Once [create_test_userword] has returned, none of the three parent
    tables can be emptied first: a bulk delete of [User], of [Word] or of
    [Wordset] is refused, each being pointed to by a row the factory has
    just created. *)
Theorem fixture_chain_blocks_parents (now user_email word_description : string)
    (word_name : option string) (db db' : Database)
    (rows : User * Wordset * Word * option UserWord) :
  Fixtures.create_test_userword next_wordset_id next_word_id
      now user_email word_description word_name db = (inr rows, db') →
  query_delete TUser (new_session db')
    = (Raise IntegrityError, settled db' [DeleteAll TUser])
  ∧ query_delete TWord (new_session db')
    = (Raise IntegrityError, settled db' [DeleteAll TWord])
  ∧ query_delete TWordset (new_session db')
    = (Raise IntegrityError, settled db' [DeleteAll TWordset]).
Proof.
  destruct rows as [[[user wordset] word] found]. intros Hrun.
  apply create_test_userword_returns in Hrun
    as (-> & _ & Hlink & Hws & Husers & Hwords & Huw & _).
  assert (Hheld_uw : ∀ k, k ∈ userword_refs
                            {| user_id := user_email; userword_word_id := word_id word;
                               is_included := true; recall_state := 1 |} →
                          k ∈ held_refs db').
  { intros k Hk. unfold held_refs. rewrite !elem_of_app. right; left.
    apply list_elem_of_bind. eexists. split; [exact Hk|].
    rewrite Huw. apply elem_of_app. right. by left. }
  assert (Hword : word ∈ words db').
  { rewrite Hwords. apply elem_of_app. right. by left. }
  split_and!.
  - apply (query_delete_refused db' TUser (RefUser user_email)).
    + cbn. rewrite Husers, fmap_app. apply elem_of_app. right. by left.
    + apply Hheld_uw. by left.
  - apply (query_delete_refused db' TWord (RefWord (word_id word))).
    + cbn. by apply (list_elem_of_fmap_2 (λ w, RefWord (word_id w))).
    + apply Hheld_uw. right. by left.
  - apply (query_delete_refused db' TWordset (RefWordset (wordset_id wordset))).
    + cbn. by apply (list_elem_of_fmap_2 (λ ws, RefWordset (wordset_id ws))).
    + unfold held_refs. rewrite !elem_of_app. left.
      apply list_elem_of_bind. exists word. split; [|done].
      unfold word_refs. rewrite Hlink. by left.
Qed.

End FixtureCleanup.

(* --------------------------------------------------------------------- *)
(** *** The factories on concrete databases *)

(** The insert of the factories is the insert of the session: staging the
    user and committing, on a fresh session, ends as [add_user] does. *)
Lemma add_user_is_session_insert (user : User) (db : Database) :
  let run := (stage (Insert user);; commit) (new_session db) in
  match Fixtures.add_user user db with
  | (inr _, db') => fst run = Ok () ∧ durable (snd run) = db'
  | (inl f, db') =>
      f = Fixtures.Raised IntegrityError ∧ fst run = Raise IntegrityError
      ∧ durable (snd run) = db'
  end.
Proof.
  unfold Fixtures.add_user. run. by case_bool_decide.
Qed.

Lemma factories_refuse_existing_user_witness :
  Fixtures.create_test_word (λ _, 2) (λ _, 2) "0.0" "test@example.com"
      "Test Wordset" None Fixtures.built_chain
    = (inl (Fixtures.Raised IntegrityError), Fixtures.built_chain)
  ∧ Fixtures.create_test_userword (λ _, 2) (λ _, 2) "0.0" "test@example.com"
      "Test Wordset" None Fixtures.built_chain
    = (inl (Fixtures.Raised IntegrityError), Fixtures.built_chain).
Proof.
  apply (factories_refuse_existing_user (λ _, 2) (λ _, 2) "0.0" "test@example.com"
           "Test Wordset" None Fixtures.built_chain).
  compute_done.
Defined.

Lemma create_test_userword_links_witness :
  let user := {| email := "test@example.com" |} in
  let wordset := {| wordset_id := 1; description := "Test Wordset" |} in
  let word := {| word_id := 1; word := "Test Word"; word_wordset_id := 1;
                 def1 := "Definition 1"; def2 := "Definition 2" |} in
  let userword := {| user_id := "test@example.com"; userword_word_id := word_id word;
                     is_included := true; recall_state := 1 |} in
  user = {| email := "test@example.com" |} ∧ Some userword = Some userword
  ∧ word_wordset_id word = wordset_id wordset
  ∧ wordset ∈ wordsets Fixtures.built_chain
  ∧ users Fixtures.built_chain = users empty_db ++ [user]
  ∧ words Fixtures.built_chain = words empty_db ++ [word]
  ∧ userwords Fixtures.built_chain = userwords empty_db ++ [userword]
  ∧ recall_history Fixtures.built_chain = recall_history empty_db.
Proof.
  apply (create_test_userword_links (λ _, 1) (λ _, 1) "0.0" "test@example.com"
           "Test Wordset" (Some "Test Word") empty_db Fixtures.built_chain).
  vm_compute. reflexivity.
Defined.

Lemma factories_fail_on_keys_only_witness :
  Fixtures.Raised IntegrityError = Fixtures.Raised IntegrityError
  ∧ ("test@example.com" ∈ emails Fixtures.built_chain
     ∧ Fixtures.built_chain = Fixtures.built_chain
     ∨ ("test@example.com" ∉ emails Fixtures.built_chain)
       ∧ users Fixtures.built_chain
         = users Fixtures.built_chain ++ [{| email := "test@example.com" |}]).
Proof.
  apply (factories_fail_on_keys_only (λ _, 2) (λ _, 2) "0.0" "test@example.com"
           "Test Wordset" None Fixtures.built_chain Fixtures.built_chain).
  left. vm_compute. reflexivity.
Defined.

Lemma create_test_userword_succeeds_witness :
  ∃ rows db',
    Fixtures.create_test_userword (λ _, 1) (λ _, 1) "0.0" "test@example.com"
        "Test Wordset" None empty_db
      = (inr rows, db').
Proof.
  apply (create_test_userword_succeeds (λ _, 1) (λ _, 1) "0.0" "test@example.com"
           "Test Wordset" None empty_db).
  - compute_done.
  - compute_done.
  - compute_done.
  - intros uw Hin. by apply elem_of_nil in Hin.
Defined.

Lemma fixture_chain_blocks_parents_witness :
  query_delete TUser (new_session Fixtures.built_chain)
    = (Raise IntegrityError, settled Fixtures.built_chain [DeleteAll TUser])
  ∧ query_delete TWord (new_session Fixtures.built_chain)
    = (Raise IntegrityError, settled Fixtures.built_chain [DeleteAll TWord])
  ∧ query_delete TWordset (new_session Fixtures.built_chain)
    = (Raise IntegrityError, settled Fixtures.built_chain [DeleteAll TWordset]).
Proof.
  apply (fixture_chain_blocks_parents (λ _, 1) (λ _, 1) "0.0" "test@example.com"
           "Test Wordset" (Some "Test Word") empty_db Fixtures.built_chain
           ({| email := "test@example.com" |},
            {| wordset_id := 1; description := "Test Wordset" |},
            {| word_id := 1; word := "Test Word"; word_wordset_id := 1;
               def1 := "Definition 1"; def2 := "Definition 2" |},
            Some {| user_id := "test@example.com"; userword_word_id := 1;
                    is_included := true; recall_state := 1 |})).
  vm_compute. reflexivity.
Defined.
